(** * sequelize-fintech-api: the ledger handlers of [src/app.js]

    A shallow embedding of the Express handlers of [src/app.js] and of the
    Sequelize queries they issue, followed by the properties of the ledger
    subsystem (settlement, deposits, reports) checked against that code.

    Conventions of the embedding.
    - A JavaScript number is a binary64 floating-point number ([num], the
      primitive [float]): sums, differences, products and comparisons are
      the IEEE 754 operations, with their rounding, their infinities, the
      two zeros and NaN.
    - A value read from a request body is a [jsval] restricted to the JSON
      primitives (plus [undefined] for a missing key).
    - A JavaScript string is given by its UTF-8 bytes, as a Rocq string; the
      string-to-number conversions follow ECMAScript, the decimal numeral
      being rounded to the nearest number.
    - The tables Profile, Contract and Job are finite maps from the primary
      key to the row ([./model] is not part of the sources; the columns are
      the ones the handlers read and write).  A money column holds what an
      SQLite column holds: a number other than NaN ([real]), or NULL where
      the column allows it; a NaN that is written is stored as NULL.
    - The aggregate [SUM] of the store is a parameter of the handlers that
      use it: it is the store's own floating-point summation of the rows it
      is given. *)

From Stdlib Require Import QArith Lqa Ascii String Floats.
From stdpp Require Import gmap strings list fin_maps sorting pretty.

Set Warnings "-inexact-float".

Local Open Scope Z_scope.

(** * The embedding *)

(** ** JavaScript numbers *)

Module JS.

Definition num : Type := float.

(** [a + b], [a - b] and [a * b] *)
Definition num_add (a b : num) : num := (a + b)%float.
Definition num_sub (a b : num) : num := (a - b)%float.
Definition num_mul (a b : num) : num := (a * b)%float.

(** [a < b], [a <= b], [a > b] and [a >= b]: false as soon as one operand
    is NaN. *)
Definition num_lt (a b : num) : bool := (a <? b)%float.
Definition num_le (a b : num) : bool := (a <=? b)%float.
Definition num_gt (a b : num) : bool := (b <? a)%float.
Definition num_ge (a b : num) : bool := (b <=? a)%float.

Definition isNaN (a : num) : bool := is_nan a.

Arguments num_add (a b)%_float_scope.
Arguments num_sub (a b)%_float_scope.
Arguments num_mul (a b)%_float_scope.
Arguments num_lt (a b)%_float_scope.
Arguments num_le (a b)%_float_scope.
Arguments num_gt (a b)%_float_scope.
Arguments num_ge (a b)%_float_scope.

(** The number nearest to the integer [z] (ties to even, infinite past the
    largest number). *)
Definition of_Z (z : Z) : num :=
  SF2Prim (binary_normalize prec emax z 0 false).

(** The integer that [a] is, when it is one. *)
Definition integer_value (a : num) : option Z :=
  match Prim2SF a with
  | S754_zero _ => Some 0
  | S754_finite s m e =>
      if 0 <=? e then Some (cond_Zopp s (Zpos m * 2 ^ e))
      else if Zpos m mod 2 ^ (- e) =? 0
           then Some (cond_Zopp s (Zpos m / 2 ^ (- e)))
           else None
  | S754_infinity _ | S754_nan => None
  end.

(** The rational that a finite number is; 0 for the infinities and NaN. *)
Definition exact_value (a : num) : Q :=
  match Prim2SF a with
  | S754_finite s m e =>
      let v := if 0 <=? e then inject_Z (Zpos m * 2 ^ e)
               else Qmake (Zpos m) (Z.to_pos (2 ^ (- e))) in
      if s then (- v)%Q else v
  | _ => 0%Q
  end.

Arguments integer_value a%_float_scope.
Arguments exact_value a%_float_scope.

(** ** Values of a parsed JSON body *)

Inductive jsval : Type :=
| VUndefined
| VNull
| VBool (b : bool)
| VNum (n : num)
| VStr (s : string).

Arguments VNum n%_float_scope.

(** *** Numeric literals in strings *)

Definition code (c : ascii) : Z := Z.of_N (N_of_ascii c).

(** StrWhiteSpaceChar, by the UTF-8 bytes of the character.  One byte:
    TAB, LF, VT, FF, CR and SP. *)
Definition is_ws (c : ascii) : bool :=
  ((9 <=? code c) && (code c <=? 13)) || (code c =? 32).

(** Two bytes: U+00A0. *)
Definition is_ws2 (c1 c2 : ascii) : bool :=
  (code c1 =? 194) && (code c2 =? 160).

(** Three bytes: U+1680, U+2000 to U+200A, U+2028, U+2029, U+202F, U+205F,
    U+3000 and U+FEFF. *)
Definition is_ws3 (c1 c2 c3 : ascii) : bool :=
  let '(a, b, c) := (code c1, code c2, code c3) in
  ((a =? 225) && (b =? 154) && (c =? 128))
  || ((a =? 226) && (b =? 128)
      && (((128 <=? c) && (c <=? 138)) || (c =? 168) || (c =? 169)
          || (c =? 175)))
  || ((a =? 226) && (b =? 129) && (c =? 159))
  || ((a =? 227) && (b =? 128) && (c =? 128))
  || ((a =? 239) && (b =? 187) && (c =? 191)).

Fixpoint skip_ws (s : string) : string :=
  match s with
  | String c1 s1 =>
      if is_ws c1 then skip_ws s1 else
      match s1 with
      | String c2 s2 =>
          if is_ws2 c1 c2 then skip_ws s2 else
          match s2 with
          | String c3 s3 => if is_ws3 c1 c2 c3 then skip_ws s3 else s
          | EmptyString => s
          end
      | EmptyString => s
      end
  | EmptyString => s
  end.

Fixpoint all_ws (s : string) : bool :=
  match s with
  | String c1 s1 =>
      if is_ws c1 then all_ws s1 else
      match s1 with
      | String c2 s2 =>
          if is_ws2 c1 c2 then all_ws s2 else
          match s2 with
          | String c3 s3 => is_ws3 c1 c2 c3 && all_ws s3
          | EmptyString => false
          end
      | EmptyString => false
      end
  | EmptyString => true
  end.

(** The value of [c] as a digit in the given radix (2, 8, 10 or 16). *)
Definition digit_val (radix : Z) (c : ascii) : option Z :=
  let n := code c in
  let v :=
    if (48 <=? n) && (n <=? 57) then Some (n - 48)
    else if (97 <=? n) && (n <=? 102) then Some (n - 87)
    else if (65 <=? n) && (n <=? 70) then Some (n - 55)
    else None in
  match v with
  | Some d => if d <? radix then Some d else None
  | None => None
  end.

(** The longest prefix of digits of [s]: its value on top of [acc], the
    number of digits read on top of [n], and the rest of the string. *)
Fixpoint digits (radix : Z) (s : string) (acc : Z) (n : nat)
  : Z * nat * string :=
  match s with
  | String c s' =>
      match digit_val radix c with
      | Some d => digits radix s' (radix * acc + d) (S n)
      | None => (acc, n, s)
      end
  | EmptyString => (acc, n, s)
  end.

(** An optional sign: whether it is [-], and the rest. *)
Definition sign (s : string) : bool * string :=
  match s with
  | String "-"%char s' => (true, s')
  | String "+"%char s' => (false, s')
  | _ => (false, s)
  end.

Definition strip_prefix (p s : string) : option string :=
  if String.prefix p s
  then Some (String.substring (String.length p)
               (String.length s - String.length p) s)
  else None.

(** ExponentPart, when [s] starts with a complete one: the exponent and
    the rest.  An [e] that is not followed by digits is not consumed. *)
Definition exponent (s : string) : Z * string :=
  match s with
  | String c s' =>
      if (code c =? 101) || (code c =? 69) then
        let '(neg, s'') := sign s' in
        let '(e, n, rest) := digits 10 s'' 0 0%nat in
        match n with
        | O => (0, s)
        | _ => (if neg then - e else e, rest)
        end
      else (0, s)
  | EmptyString => (0, s)
  end.

(** The number nearest to [m * 10^e], for [m] not negative: an integer is
    rounded as such, a fraction is the correctly rounded quotient of [m]
    by the power of ten. *)
Definition scale10 (m e : Z) : num :=
  if 0 <=? e then of_Z (m * 10 ^ e)
  else
    match m with
    | Zpos p =>
        SF2Prim (SFdiv prec emax (S754_finite false p 0)
                   (S754_finite false (Z.to_pos (10 ^ (- e))) 0))
    | _ => 0%float
    end.

(** The longest prefix of [s] that is an unsigned StrDecimalLiteral. *)
Definition unsigned_decimal (s : string) : option (num * string) :=
  match strip_prefix "Infinity" s with
  | Some rest => Some (infinity, rest)
  | None =>
      let '(ip, ni, r1) := digits 10 s 0 0%nat in
      let '(m, nf, r2) :=
        match r1 with
        | String "."%char r => digits 10 r ip 0%nat
        | _ => (ip, 0%nat, r1)
        end in
      match ni, nf with
      | O, O => None
      | _, _ =>
          let '(e, rest) := exponent r2 in
          Some (scale10 m (e - Z.of_nat nf), rest)
      end
  end.

Definition signed_decimal (s : string) : option (num * string) :=
  let '(neg, s') := sign s in
  match unsigned_decimal s' with
  | Some (v, rest) => Some (if neg then (- v)%float else v, rest)
  | None => None
  end.

(** [parseFloat(s)] for a string [s]. *)
Definition parseFloat_string (s : string) : num :=
  match signed_decimal (skip_ws s) with
  | Some (v, _) => v
  | None => nan
  end.

(** [parseInt(s, 10)] for a string [s]: the number nearest to the integer
    that the digits denote, NaN when there is no digit. *)
Definition parseInt10 (s : string) : num :=
  let '(neg, s') := sign (skip_ws s) in
  let '(v, n, _) := digits 10 s' 0 0%nat in
  match n with
  | O => nan
  | _ => if neg then (- of_Z v)%float else of_Z v
  end.

(** NonDecimalIntegerLiteral: [0x], [0o] and [0b] literals, unsigned. *)
Definition radix_literal (s : string) : option (num * string) :=
  match s with
  | String "0"%char (String c s') =>
      let radix :=
        if (code c =? 120) || (code c =? 88) then Some 16
        else if (code c =? 111) || (code c =? 79) then Some 8
        else if (code c =? 98) || (code c =? 66) then Some 2
        else None in
      match radix with
      | Some r =>
          let '(v, n, rest) := digits r s' 0 0%nat in
          match n with
          | O => None
          | _ => Some (of_Z v, rest)
          end
      | None => None
      end
  | _ => None
  end.

(** StringToNumber: the whole string, white space trimmed, must be a
    StrNumericLiteral; the empty string is 0. *)
Definition StringToNumber (s : string) : num :=
  let t := skip_ws s in
  match t with
  | EmptyString => 0%float
  | _ =>
      let lit :=
        match radix_literal t with
        | Some r => Some r
        | None => signed_decimal t
        end in
      match lit with
      | Some (v, rest) => if all_ws rest then v else nan
      | None => nan
      end
  end.

(** ToNumber *)
Definition ToNumber (v : jsval) : num :=
  match v with
  | VUndefined => nan
  | VNull => 0%float
  | VBool b => if b then 1%float else 0%float
  | VNum n => n
  | VStr s => StringToNumber s
  end.

(** [parseFloat(v)]: [v] is converted to a string first.  A number prints
    to a string that reads back as the same number, except that [-0] prints
    as ["0"]; ["undefined"], ["null"], ["true"] and ["false"] do not start
    with a numeric literal. *)
Definition parseFloat (v : jsval) : num :=
  match v with
  | VNum n => if is_zero n then 0%float else n
  | VStr s => parseFloat_string s
  | VUndefined | VNull | VBool _ => nan
  end.

(** [v < n], [v <= n], [v > n] and [v * n] with a number on the right: the
    left operand goes through ToNumber. *)
Definition lt_number (v : jsval) (n : num) : bool := num_lt (ToNumber v) n.
Definition le_number (v : jsval) (n : num) : bool := num_le (ToNumber v) n.
Definition gt_number (v : jsval) (n : num) : bool := num_gt (ToNumber v) n.
Definition mul_number (v : jsval) (n : num) : num := num_mul (ToNumber v) n.

Arguments lt_number v n%_float_scope.
Arguments le_number v n%_float_scope.
Arguments gt_number v n%_float_scope.
Arguments mul_number v n%_float_scope.

End JS.

Import JS.

(** ** The store *)

(** What a numeric column of the store holds when it is not NULL: a
    binary64 number other than NaN. *)
Record real : Type := Real {
  value : num;
  value_is_number : is_nan value = false
}.

(** Writing a number into a nullable column: SQLite stores NaN as NULL. *)
Definition to_column (x : num) : option real :=
  match Sumbool.sumbool_of_bool (is_nan x) with
  | left _ => None
  | right H => Some (Real x H)
  end.

Arguments to_column x%_float_scope.

(** Reading a nullable column: NULL comes back as [null]. *)
Definition from_column (c : option real) : jsval :=
  match c with
  | Some r => VNum (value r)
  | None => VNull
  end.

(** Modelled from the spec: the models Profile, Contract and Job are
    declared in [./model], which is not among the sources.  The records
    below have the columns that [src/app.js] reads and writes, under the
    names it uses; the specification calls the [client] role payer, the
    [contractor] role performer, and lists the same three contract
    statuses. *)
Inductive ProfileType : Type := client | contractor.
Inductive ContractStatus : Type := new | in_progress | terminated.

#[global] Instance ProfileType_eq_dec : EqDecision ProfileType.
Proof. solve_decision. Defined.
#[global] Instance ContractStatus_eq_dec : EqDecision ContractStatus.
Proof. solve_decision. Defined.

(** Modelled from the spec: a Profile row (role, profession, balance and
    the two names); the primary key is the key of the table.  The balance
    is a nullable column. *)
Record Profile : Type := mkProfile {
  firstName : string;
  lastName : string;
  profession : string;
  balance : option real;
  type : ProfileType
}.

(** Modelled from the spec: a Contract row, with its status and the ids
    of its payer ([ClientId]) and of its performer ([ContractorId]). *)
Record Contract : Type := mkContract {
  status : ContractStatus;
  ClientId : Z;
  ContractorId : Z
}.

(** Modelled from the spec: a Job row.  [price] is an amount that is
    never NULL, [paymentDate] a timestamp that is NULL ([None]) until the
    job is paid, [ContractId] the id of its contract. *)
Record Job : Type := mkJob {
  price : real;
  paid : bool;
  paymentDate : option Z;
  ContractId : Z
}.

(** The three tables, keyed by [id]. *)
Record Store : Type := mkStore {
  Profiles : gmap Z Profile;
  Contracts : gmap Z Contract;
  Jobs : gmap Z Job
}.

(** ** Responses *)

(** One row of the best-clients report. *)
Record ClientTotal : Type := mkClientTotal {
  totalPaid : option real;
  ct_firstName : option string;
  ct_lastName : option string;
  ct_ClientId : Z
}.

(** The JSON bodies the handlers send.  The deposit-limit error carries the
    number that the handler formats into its message. *)
Inductive Body : Type :=
| Error (error : string)
| Message (message : string)
| DepositLimitError (maxDeposit : num)
| DepositSuccess (newBalance : num)
| ContractList (rows : list (Z * Contract))
| BestProfession (best : option string) (totalEarnings : option real)
| BestClients (rows : list ClientTotal).

Arguments DepositLimitError maxDeposit%_float_scope.
Arguments DepositSuccess newBalance%_float_scope.

Record Response : Type := Resp { status_code : Z; body : Body }.

(** ** Queries *)

(** [Profile.findOne({ where: { id, type } })] *)
Definition Profile_findOne (st : Store) (id : Z) (ty : ProfileType)
  : option Profile :=
  match Profiles st !! id with
  | Some p => if decide (type p = ty) then Some p else None
  | None => None
  end.

(** [instance.update({ balance: v })] on the profile row [id]: the number
    [v] goes into the nullable column. *)
Definition set_balance (v : option real) (p : Profile) : Profile :=
  mkProfile (firstName p) (lastName p) (profession p) v (type p).

Definition update_balance (st : Store) (id : Z) (v : num) : Store :=
  mkStore (alter (set_balance (to_column v)) id (Profiles st))
          (Contracts st) (Jobs st).

Arguments update_balance st id%_Z_scope v%_float_scope.

(** [job.update({ paid: true, paymentDate: new Date() })] on the job row
    [id], [now] being the value of [new Date()]. *)
Definition set_paid (now : Z) (j : Job) : Job :=
  mkJob (price j) true (Some now) (ContractId j).

Definition update_paid (st : Store) (id : Z) (now : Z) : Store :=
  mkStore (Profiles st) (Contracts st) (alter (set_paid now) id (Jobs st)).

(** The [where] clause of GET /contracts:
    [(ClientId = profileId OR ContractorId = profileId) AND status = 'in_progress'] *)
Definition active_for (profileId : Z) (c : Contract) : bool :=
  (bool_decide (ClientId c = profileId)
   || bool_decide (ContractorId c = profileId))
  && bool_decide (status c = in_progress).

Definition Contract_findAll (st : Store) (where_ : Contract → bool)
  : list (Z * Contract) :=
  List.filter (λ r, where_ r.2) (map_to_list (Contracts st)).

(** The rows of [Job.sum] in the deposit handler: the jobs with
    [paid = false], inner-joined with their contract under
    [ClientId = userId AND status = 'in_progress']. *)
Definition owed_by (st : Store) (userId : Z) (j : Job) : bool :=
  negb (paid j)
  && match Contracts st !! ContractId j with
     | Some c => bool_decide (ClientId c = userId)
                 && bool_decide (status c = in_progress)
     | None => false
     end.

(** [paid = true AND paymentDate BETWEEN start AND end_] *)
Definition paid_between (start end_ : Z) (j : Job) : bool :=
  paid j
  && match paymentDate j with
     | Some d => (start <=? d) && (d <=? end_)
     | None => false
     end.

(** The order of SQL on a numeric column that may be NULL: NULL comes
    before every number. *)
Definition sql_le (a b : option real) : bool :=
  match a, b with
  | None, _ => true
  | Some _, None => false
  | Some x, Some y => num_le (value x) (value y)
  end.

(** [ORDER BY sum(price) DESC].  SQL leaves the order of equal totals open;
    the model takes the one its merge sort produces. *)
Definition total_ge {K} (a b : K * option real) : Prop := sql_le b.2 a.2.

#[global] Instance total_ge_dec {K} : RelDecision (@total_ge K).
Proof. intros a b. unfold total_ge. apply _. Defined.

Definition order_by_total_desc {K} (groups : list (K * option real))
  : list (K * option real) :=
  merge_sort total_ge groups.

(** [LIMIT n].  A negative [n] is read as no limit, as SQLite does. *)
Definition sql_limit {A} (n : Z) (l : list A) : list A :=
  if n <? 0 then l else take (Z.to_nat n) l.

(** The [LIMIT] that a number stands for in the text of a query: the
    integer it is, when SQLite reads it as a 64-bit integer.  A number that
    is written as [Infinity], or as an integer literal or a real outside
    that range, makes the query fail ([None]). *)
Definition limit_clause (n : num) : option Z :=
  match integer_value n with
  | Some z => if (- 2 ^ 63 <? z) && (z <? 2 ^ 63) then Some z else None
  | None => None
  end.

Arguments limit_clause n%_float_scope.

(** ** Handlers *)

(** Each handler takes the store and the request data and returns the
    response, the writing ones also the store after the request.  The
    [catch] branches (status 500) are reached when a number that is not
    finite, or a limit out of range, is written into the text of a
    query. *)

(** GET /contracts, for the profile [profileId] set by [getProfile]. *)
Definition get_contracts (st : Store) (profileId : Z) : Response :=
  let activeContracts := Contract_findAll st (active_for profileId) in
  if (length activeContracts =? 0)%nat
  then Resp 404 (Message "No active contracts found")
  else Resp 200 (ContractList activeContracts).

(** POST /jobs/:job_id/pay, for a [jobId] that is NaN ([None]) or an
    integer; [clientId] is [req.profile.id]. *)
Definition pay_job (st : Store) (jobId : option Z) (clientId : Z) (now : Z)
  : Store * Response :=
  match jobId with
  | None => (st, Resp 400 (Error "Invalid job ID"))
  | Some jobId =>
  match Jobs st !! jobId with
  | None => (st, Resp 404 (Error "Job not found"))
  | Some job =>
  if paid job then (st, Resp 400 (Error "Job is already paid")) else
  match Contracts st !! ContractId job with
  | None => (st, Resp 404 (Error "Contract not found"))
  | Some contract =>
  let client_ := Profile_findOne st clientId client in
  let contractor_ := Profile_findOne st (ContractorId contract) contractor in
  match client_ with
  | None => (st, Resp 404 (Error "Client not found"))
  | Some client_ =>
  if lt_number (from_column (balance client_)) (value (price job))
  then (st, Resp 400 (Error "Insufficient funds")) else
  match contractor_ with
  | None => (st, Resp 404 (Error "Contractor not found"))
  | Some contractor_ =>
  (* the transaction *)
  let st1 := update_balance st clientId
               (num_sub (parseFloat (from_column (balance client_)))
                        (parseFloat (VNum (value (price job))))) in
  let st2 := update_balance st1 (ContractorId contract)
               (num_add (parseFloat (from_column (balance contractor_)))
                        (parseFloat (VNum (value (price job))))) in
  let st3 := update_paid st2 jobId now in
  (st3, Resp 200 (Message "Payment successful"))
  end end end end end.

(** The route with its path parameter.  [parseInt] gives NaN, an integer,
    or, for a numeral past the largest number, an infinity; the infinity is
    written into the query as [Infinity], the query fails and the handler
    answers from its [catch] branch. *)
Definition post_jobs_pay (st : Store) (job_id : string) (clientId now : Z)
  : Store * Response :=
  let jobId := parseInt10 job_id in
  if isNaN jobId then pay_job st None clientId now
  else
    match integer_value jobId with
    | Some id => pay_job st (Some id) clientId now
    | None =>
        (st, Resp 500 (Error "An error occurred while processing the payment"))
    end.

Section engine.

(** The aggregate [SUM] of the store over values that are not NULL, at
    least one: the store's floating-point summation of the rows in the
    order in which it visits them. *)
Variable SUM : list real → num.

(** SQL's [sum(price)] over the rows of a group or of a whole query: NULL
    over no rows, and NULL when the total is NaN. *)
Definition sql_sum (prices : list real) : option real :=
  match prices with
  | [] => None
  | _ => to_column (SUM prices)
  end.

(** [Model.sum]: the total goes through [parseFloat] unless it is NULL,
    which the query interface hands through as [null]. *)
Definition Job_sum_price (rows : list (Z * Job)) : jsval :=
  match sql_sum ((λ r, price r.2) <$> rows) with
  | Some total => VNum (parseFloat (VNum (value total)))
  | None => VNull
  end.

(** [GROUP BY key] with [sum(amount)]: one row per distinct key, carrying
    the total over the rows of that key. *)
Definition total_of `{EqDecision K} (k : K) (rows : list (K * real))
  : option real :=
  sql_sum (snd <$> List.filter (λ r, bool_decide (r.1 = k)) rows).

Definition group_totals `{EqDecision K} (rows : list (K * real))
  : list (K * option real) :=
  (λ k, (k, total_of k rows)) <$> remove_dups (rows.*1).

(** [unpaidJobsTotal] and [maxDeposit] of the deposit handler. *)
Definition unpaidJobsTotal (st : Store) (userId : Z) : jsval :=
  Job_sum_price (List.filter (λ r, owed_by st userId r.2)
                   (map_to_list (Jobs st))).

Definition maxDeposit (st : Store) (userId : Z) : num :=
  mul_number (unpaidJobsTotal st userId) 0.25%float.

(** POST /balances/deposit/:userId, for a [userId] that is NaN ([None]) or
    an integer; [amount] is [req.body.amount]. *)
Definition deposit (st : Store) (userId : option Z) (amount : jsval)
  : Store * Response :=
  match userId with
  | None => (st, Resp 400 (Error "Invalid request"))
  | Some userId =>
  if le_number amount 0%float
  then (st, Resp 400 (Error "Invalid request")) else
  match Profile_findOne st userId client with
  | None => (st, Resp 404 (Error "Client not found"))
  | Some client_ =>
  let maxDeposit := maxDeposit st userId in
  if gt_number amount maxDeposit
  then (st, Resp 400 (DepositLimitError maxDeposit)) else
  let newBalance :=
    num_add (parseFloat (from_column (balance client_))) (parseFloat amount) in
  (update_balance st userId newBalance, Resp 200 (DepositSuccess newBalance))
  end end.

(** The route with its path parameter.  An infinite [userId] passes the
    [isNaN] test; when the amount passes too, the first query fails on
    [Infinity] and the handler answers from its [catch] branch. *)
Definition post_balances_deposit (st : Store) (userId : string)
  (amount : jsval) : Store * Response :=
  let id := parseInt10 userId in
  if isNaN id then deposit st None amount
  else
    match integer_value id with
    | Some id => deposit st (Some id) amount
    | None =>
        if le_number amount 0%float
        then (st, Resp 400 (Error "Invalid request"))
        else (st, Resp 500
                    (Error "An error occurred while processing the deposit"))
    end.

(** The jobs of the two reports: [paid = true] and [paymentDate] between
    the two dates. *)
Definition paid_jobs (st : Store) (start end_ : Z) : list (Z * Job) :=
  List.filter (λ r, paid_between start end_ r.2) (map_to_list (Jobs st)).




(** [parseInt(limit, 10) || 2] with [limit = 2] for a missing parameter:
    NaN and the two zeros are the falsy results. *)
Definition limit_option (limit : option string) : num :=
  let limit :=
    match limit with
    | None => 2%float
    | Some s => parseInt10 s
    end in
  if isNaN limit || is_zero limit then 2%float else limit.

(** The rows of the best-clients query: the paid jobs inner-joined with
    their contract, keyed by [Contract.ClientId]. *)
Definition client_payments (st : Store) (start end_ : Z) : list (Z * real) :=
  omap (λ r, c ← Contracts st !! ContractId r.2;
             Some (ClientId c, price r.2))
       (paid_jobs st start end_).

(** The output row of a group; the names come from the left-joined Client
    profile. *)
Definition client_total (st : Store) (g : Z * option real) : ClientTotal :=
  mkClientTotal g.2 (firstName <$> Profiles st !! g.1)
                    (lastName <$> Profiles st !! g.1) g.1.

(** The rows of the report for the clause [LIMIT limit]. *)
Definition bestClients (st : Store) (start end_ : Z) (limit : Z)
  : list ClientTotal :=
  client_total st
    <$> sql_limit limit
          (order_by_total_desc (group_totals (client_payments st start end_))).

(** GET /admin/best-clients *)
Definition best_clients (st : Store) (start end_ : option Z)
  (limit : option string) : Response :=
  match start, end_ with
  | Some start, Some end_ =>
      match limit_clause (limit_option limit) with
      | Some limit => Resp 200 (BestClients (bestClients st start end_ limit))
      | None =>
          Resp 500 (Error "An error occurred while fetching the best clients")
      end
  | _, _ => Resp 400 (Error "Start and end dates are required")
  end.

End engine.

(** A store that adds the values up in binary64, one row after the
    other. *)
Definition binary64_sum (prices : list real) : num :=
  foldl (λ total x, num_add total (value x)) 0%float prices.

(** ** The two other listing handlers *)

(** What GET /contracts/:id sends: [res.status(404).end()], or the
    contract as JSON. *)
Inductive ContractAnswer : Type :=
| ContractNotFound
| ContractJson (id : Z) (contract : Contract).

(** [Contract.findOne({ where: { id, clientId: profileId } })].  The key
    [clientId] names the column [ClientId]: the store resolves column names
    without regard to case, as SQLite does. *)
Definition Contract_findOne_of_client (st : Store) (id profileId : Z)
  : option Contract :=
  match Contracts st !! id with
  | Some c => if decide (ClientId c = profileId) then Some c else None
  | None => None
  end.

(** GET /contracts/:id, for the profile [profileId] set by [getProfile].
    [id] is the integer that the path parameter denotes; a parameter that
    is not the numeral of an integer is not modelled. *)
Definition get_contract (st : Store) (id profileId : Z) : ContractAnswer :=
  match Contract_findOne_of_client st id profileId with
  | None => ContractNotFound
  | Some contract => ContractJson id contract
  end.

(** GET /jobs/unpaid, for the profile [profileId] set by [getProfile]: the
    list sent by [res.json(unpaidJobs)].  The ids of the active contracts
    are collected first, then the jobs are selected with
    [ContractId IN contractIds AND paid = false]. *)
Definition get_jobs_unpaid (st : Store) (profileId : Z) : list (Z * Job) :=
  let activeContracts := Contract_findAll st (active_for profileId) in
  let contractIds := activeContracts.*1 in
  List.filter
    (λ r, bool_decide (ContractId r.2 ∈ contractIds) && negb (paid r.2))
    (map_to_list (Jobs st)).

(** * The notions of the statements *)

(** ** Classes of binary64 numbers *)

(** A number that is not negative: a zero, a positive number or the
    positive infinity. *)
Definition SFnonneg (x : spec_float) : Prop :=
  match x with
  | S754_zero _ | S754_infinity false | S754_finite false _ _ => True
  | _ => False
  end.

(** The result of a rounding: a number of the sign asked for. *)
Definition SFsigned (s : bool) (x : spec_float) : Prop :=
  match x with
  | S754_zero s' | S754_infinity s' | S754_finite s' _ _ => s' = s
  | S754_nan => False
  end.

(** The order of the numbers other than NaN, through a rank. *)
Definition rank (x : spec_float) : Z * Z * Z :=
  match x with
  | S754_infinity true => (-2, 0, 0)
  | S754_finite true m e => (-1, - e, - Zpos m)
  | S754_zero _ | S754_nan => (0, 0, 0)
  | S754_finite false m e => (1, e, Zpos m)
  | S754_infinity false => (2, 0, 0)
  end.

Definition rank_le (a b : Z * Z * Z) : Prop :=
  a.1.1 < b.1.1 ∨
  (a.1.1 = b.1.1 ∧ (a.1.2 < b.1.2 ∨ (a.1.2 = b.1.2 ∧ a.2 ≤ b.2))).

(** ** Settlement *)

(** The two numbers a settlement writes: the payer's balance less the
    price and the performer's balance plus the price, in binary64, each
    operand read by [parseFloat]. *)
Definition debited (payer : Profile) (job : Job) : num :=
  num_sub (parseFloat (from_column (balance payer)))
          (parseFloat (VNum (value (price job)))).

Definition credited (performer : Profile) (job : Job) : num :=
  num_add (parseFloat (from_column (balance performer)))
          (parseFloat (VNum (value (price job)))).

(** The answers of the pay handler, each with the state of the store that
    leads to it. *)
Inductive pay_outcome (st : Store) (jobId : option Z) (clientId now : Z)
  : Store * Response → Prop :=
| pay_invalid_id :
    jobId = None →
    pay_outcome st jobId clientId now (st, Resp 400 (Error "Invalid job ID"))
| pay_no_job id :
    jobId = Some id → Jobs st !! id = None →
    pay_outcome st jobId clientId now (st, Resp 404 (Error "Job not found"))
| pay_already_paid id job :
    jobId = Some id → Jobs st !! id = Some job → paid job = true →
    pay_outcome st jobId clientId now
      (st, Resp 400 (Error "Job is already paid"))
| pay_no_contract id job :
    jobId = Some id → Jobs st !! id = Some job → paid job = false →
    Contracts st !! ContractId job = None →
    pay_outcome st jobId clientId now
      (st, Resp 404 (Error "Contract not found"))
| pay_no_client id job contract :
    jobId = Some id → Jobs st !! id = Some job → paid job = false →
    Contracts st !! ContractId job = Some contract →
    Profile_findOne st clientId client = None →
    pay_outcome st jobId clientId now (st, Resp 404 (Error "Client not found"))
| pay_insufficient id job contract payer :
    jobId = Some id → Jobs st !! id = Some job → paid job = false →
    Contracts st !! ContractId job = Some contract →
    Profile_findOne st clientId client = Some payer →
    lt_number (from_column (balance payer)) (value (price job)) = true →
    pay_outcome st jobId clientId now
      (st, Resp 400 (Error "Insufficient funds"))
| pay_no_contractor id job contract payer :
    jobId = Some id → Jobs st !! id = Some job → paid job = false →
    Contracts st !! ContractId job = Some contract →
    Profile_findOne st clientId client = Some payer →
    lt_number (from_column (balance payer)) (value (price job)) = false →
    Profile_findOne st (ContractorId contract) contractor = None →
    pay_outcome st jobId clientId now
      (st, Resp 404 (Error "Contractor not found"))
| pay_success id job contract payer performer :
    jobId = Some id → Jobs st !! id = Some job → paid job = false →
    Contracts st !! ContractId job = Some contract →
    Profile_findOne st clientId client = Some payer →
    lt_number (from_column (balance payer)) (value (price job)) = false →
    Profile_findOne st (ContractorId contract) contractor = Some performer →
    pay_outcome st jobId clientId now
      (update_paid
         (update_balance
            (update_balance st clientId (debited payer job))
            (ContractorId contract) (credited performer job))
         id now,
       Resp 200 (Message "Payment successful")).

(** The [balance] column of the profile [id], when there is such a
    profile. *)
Definition balance_at (st : Store) (id : Z) : option (option real) :=
  balance <$> Profiles st !! id.

(** The balance of the profile [id] as a number, when there is such a
    profile and its balance is not NULL. *)
Definition funds (st : Store) (id : Z) : option num :=
  p ← Profiles st !! id; value <$> balance p.

(** The six preconditions of a settlement, as the specification names them,
    each with the failure it stands for. *)
Inductive Precondition : Type :=
| JobExists | JobUnpaid | ContractExists
| PayerExists | PerformerExists | SufficientFunds.

(** [SufficientFunds] is [payer.balance >= job.price] as JavaScript
    evaluates it on the two columns. *)
Definition holds (st : Store) (jobId payerId : Z) (c : Precondition) : bool :=
  match c with
  | JobExists => bool_decide (is_Some (Jobs st !! jobId))
  | JobUnpaid =>
      match Jobs st !! jobId with
      | Some job => negb (paid job)
      | None => false
      end
  | ContractExists =>
      match Jobs st !! jobId with
      | Some job => bool_decide (is_Some (Contracts st !! ContractId job))
      | None => false
      end
  | PayerExists =>
      match Profiles st !! payerId with
      | Some p => bool_decide (type p = client)
      | None => false
      end
  | PerformerExists =>
      match Jobs st !! jobId with
      | Some job =>
          match Contracts st !! ContractId job with
          | Some contract =>
              match Profiles st !! ContractorId contract with
              | Some p => bool_decide (type p = contractor)
              | None => false
              end
          | None => false
          end
      | None => false
      end
  | SufficientFunds =>
      match Jobs st !! jobId, Profiles st !! payerId with
      | Some job, Some payer =>
          num_ge (ToNumber (from_column (balance payer))) (value (price job))
      | _, _ => false
      end
  end.

Definition failure (c : Precondition) : Response :=
  match c with
  | JobExists => Resp 404 (Error "Job not found")
  | JobUnpaid => Resp 400 (Error "Job is already paid")
  | ContractExists => Resp 404 (Error "Contract not found")
  | PayerExists => Resp 404 (Error "Client not found")
  | PerformerExists => Resp 404 (Error "Contractor not found")
  | SufficientFunds => Resp 400 (Error "Insufficient funds")
  end.

(** The order of the specification, and the order of the handler. *)
Definition spec_order : list Precondition :=
  [JobExists; JobUnpaid; ContractExists;
   PayerExists; PerformerExists; SufficientFunds].

Definition handler_order : list Precondition :=
  [JobExists; JobUnpaid; ContractExists;
   PayerExists; SufficientFunds; PerformerExists].

(** [c] is the first precondition of [order] that does not hold. *)
Definition first_violated (st : Store) (jobId payerId : Z)
  (order : list Precondition) (c : Precondition) : Prop :=
  ∃ before after,
    order = before ++ c :: after ∧
    Forall (λ d, holds st jobId payerId d = true) before ∧
    holds st jobId payerId c = false.

(** The first precondition of [order] that does not hold, if any. *)
Definition first_failure (st : Store) (jobId payerId : Z)
  (order : list Precondition) : option Precondition :=
  List.find (λ c, negb (holds st jobId payerId c)) order.

(** ** Deposits *)

(** The outstanding jobs of a payer: unpaid, under a contract in progress
    that has this payer. *)
Definition Outstanding (st : Store) (payerId : Z) (j : Job) : Prop :=
  paid j = false ∧
  ∃ c, Contracts st !! ContractId j = Some c ∧
       ClientId c = payerId ∧ status c = in_progress.

#[global] Instance Outstanding_dec st payerId j :
  Decision (Outstanding st payerId j).
Proof.
  unfold Outstanding.
  destruct (Contracts st !! ContractId j) as [c|].
  - destruct (decide (paid j = false ∧ ClientId c = payerId
                      ∧ status c = in_progress)) as [H|H]; [left|right].
    + destruct H as (? & ? & ?). eauto.
    + intros (? & c' & [= <-] & ? & ?). by apply H.
  - right. by intros (_ & c & ? & _).
Defined.

Definition outstanding (st : Store) (payerId : Z) : gmap Z Job :=
  filter (λ r, Outstanding st payerId r.2) (Jobs st).

Definition Qsum (l : list Q) : Q := foldr Qplus 0%Q l.

(** The price of a job as a rational. *)
Definition exact_price (j : Job) : Q := exact_value (value (price j)).

(** The deposit cap in the words of the specification: 25% of the prices
    of the outstanding jobs, in exact arithmetic. *)
Definition spec_MaxDeposit (st : Store) (payerId : Z) : Q :=
  (25 # 100) * Qsum (exact_price <$> (map_to_list (outstanding st payerId)).*2).

(** A balance that is a number at least zero. *)
Definition nonneg (b : option real) : bool :=
  match b with
  | Some r => num_le 0%float (value r)
  | None => false
  end.

(** Every profile has a balance that is at least zero. *)
Definition nonneg_balances (st : Store) : Prop :=
  map_Forall (λ _ p, nonneg (balance p) = true) (Profiles st).

(** A price that is finite and not negative. *)
Definition nonneg_price (j : Job) : Prop :=
  num_le 0%float (value (price j)) = true ∧
  is_infinity (value (price j)) = false.

(** ** Reports *)

(** A job settled inside the window: paid, with a payment date between
    [start] and [end_], both included. *)
Definition PaidBetween (start end_ : Z) (j : Job) : Prop :=
  paid j = true ∧ ∃ d, paymentDate j = Some d ∧ start ≤ d ≤ end_.

#[global] Instance PaidBetween_dec start end_ j :
  Decision (PaidBetween start end_ j).
Proof.
  unfold PaidBetween.
  destruct (paymentDate j) as [d|].
  - destruct (decide (paid j = true ∧ start ≤ d ≤ end_)) as [H|H];
      [left|right].
    + destruct H as (? & ?). eauto.
    + intros (? & d' & [= <-] & ?). by apply H.
  - right. by intros (_ & d & ? & _).
Defined.

Definition settled (st : Store) (start end_ : Z) : gmap Z Job :=
  filter (λ r, PaidBetween start end_ r.2) (Jobs st).

(** The performer of a job: the profile of type contractor that the
    contract of the job names as its contractor. *)
Definition Performer (st : Store) (j : Job) (p : Profile) : Prop :=
  ∃ c, Contracts st !! ContractId j = Some c ∧
       Profiles st !! ContractorId c = Some p ∧ type p = contractor.

(** The group of a job in the best-profession report: the profession of
    its performer, or no profession ([None]) for a job without performer. *)
Definition ProfessionOf (st : Store) (j : Job) (g : option string) : Prop :=
  match g with
  | Some name => ∃ p, Performer st j p ∧ profession p = name
  | None => ∀ p, ¬ Performer st j p
  end.

#[global] Instance ProfessionOf_dec st j g : Decision (ProfessionOf st j g).
Proof.
  unfold ProfessionOf, Performer.
  destruct (Contracts st !! ContractId j) as [c|] eqn:Hc.
  - destruct (Profiles st !! ContractorId c) as [p|] eqn:Hp.
    + destruct (decide (type p = contractor)) as [Hty|Hty].
      * destruct g as [name|].
        -- destruct (decide (profession p = name)) as [Hn|Hn]; [left|right].
           ++ exists p. split; [by exists c|done].
           ++ intros (p' & (c' & [= <-] & Hp' & _) & ?).
              rewrite Hp in Hp'. injection Hp' as <-. by apply Hn.
        -- right. intros H. apply (H p). by exists c.
      * destruct g as [name|]; [right|left].
        -- intros (p' & (c' & [= <-] & Hp' & ?) & _).
           rewrite Hp in Hp'. injection Hp' as <-. by apply Hty.
        -- intros p' (c' & [= <-] & Hp' & ?).
           rewrite Hp in Hp'. injection Hp' as <-. by apply Hty.
    + destruct g as [name|]; [right|left].
      * intros (p' & (c' & [= <-] & Hp' & _) & _). by rewrite Hp in Hp'.
      * intros p' (c' & [= <-] & Hp' & _). by rewrite Hp in Hp'.
  - destruct g as [name|]; [right|left].
    + by intros (p' & (c' & ? & _) & _).
    + by intros p' (c' & ? & _).
Defined.

(** The settled jobs in the order of the table. *)
Definition settled_rows (st : Store) (start end_ : Z) : list (Z * Job) :=
  filter (λ r, PaidBetween start end_ r.2) (map_to_list (Jobs st)).

Section sums.

Variable SUM : list real → num.


(** What a client paid in the window: the total, by the store's [SUM], of
    the prices of the settled jobs whose contract has this client. *)
Definition paid_by (st : Store) (start end_ : Z) (clientId : Z)
  : option real :=
  sql_sum SUM
    ((λ r, price r.2)
       <$> filter (λ r, ClientId <$> Contracts st !! ContractId r.2
                        = Some clientId)
             (settled_rows st start end_)).

End sums.


(** ** Listing the active contracts *)

(** A contract in progress in which the profile is one of the two parties. *)
Definition ActiveFor (profileId : Z) (c : Contract) : Prop :=
  status c = in_progress ∧ (ClientId c = profileId ∨ ContractorId c = profileId).

(** * Sample ledgers *)

(** Amounts of the samples. *)
Definition money (x : num) (H : is_nan x = false) : real := Real x H.
Arguments money x%_float_scope H.

(** A sample ledger.  Client 1 has balance 50 and two contracts in
    progress: contract 1 with contractor 2, and contract 2 whose contractor
    99 has no profile; the three jobs are unpaid.  Contractor 3 and client 4
    have no contract. *)
Definition sample : Store :=
  mkStore
    (list_to_map
       [(1, mkProfile "Harry" "Potter" "Wizard"
              (Some (money 50 eq_refl)) client);
        (2, mkProfile "Linus" "Torvalds" "Programmer"
              (Some (money 10 eq_refl)) contractor);
        (3, mkProfile "Alan" "Turing" "Programmer"
              (Some (money 0 eq_refl)) contractor);
        (4, mkProfile "Ash" "Ketchum" "Trainer"
              (Some (money 0 eq_refl)) client)])
    (list_to_map
       [(1, mkContract in_progress 1 2); (2, mkContract in_progress 1 99)])
    (list_to_map
       [(1, mkJob (money 80 eq_refl) false None 1);
        (2, mkJob (money 200 eq_refl) false None 2);
        (3, mkJob (money 30 eq_refl) false None 1)]).

(** A ledger with three settled jobs: client 1 paid 300 to a contractor of
    profession "A", clients 2 and 3 paid 400 and 100 to a contractor of
    profession "B"; the payment dates are 10, 20 and 30. *)
Definition settled_sample : Store :=
  mkStore
    (list_to_map
       [(1, mkProfile "Harry" "Potter" "Wizard"
              (Some (money 0 eq_refl)) client);
        (2, mkProfile "Mr" "Robot" "Hacker"
              (Some (money 0 eq_refl)) client);
        (3, mkProfile "John" "Snow" "Knows nothing"
              (Some (money 0 eq_refl)) client);
        (4, mkProfile "Alan" "Turing" "A"
              (Some (money 300 eq_refl)) contractor);
        (5, mkProfile "Linus" "Torvalds" "B"
              (Some (money 500 eq_refl)) contractor)])
    (list_to_map
       [(1, mkContract in_progress 1 4);
        (2, mkContract in_progress 2 5);
        (3, mkContract terminated 3 5)])
    (list_to_map
       [(1, mkJob (money 300 eq_refl) true (Some 10) 1);
        (2, mkJob (money 400 eq_refl) true (Some 20) 2);
        (3, mkJob (money 100 eq_refl) true (Some 30) 3)]).

(** A ledger with amounts in cents.  Client 1 has balance 37.73 and owes
    15.85 for job 1 to contractor 2, whose balance is 16.3; client 3 has
    balance 0.1 and owes 0.1 and 0.2 for jobs 2 and 3; client 4 has balance
    0.1 and owes 1 for job 4. *)
Definition cents_sample : Store :=
  mkStore
    (list_to_map
       [(1, mkProfile "Harry" "Potter" "Wizard"
              (Some (money 37.73 eq_refl)) client);
        (2, mkProfile "Linus" "Torvalds" "Programmer"
              (Some (money 16.3 eq_refl)) contractor);
        (3, mkProfile "Mr" "Robot" "Hacker"
              (Some (money 0.1 eq_refl)) client);
        (4, mkProfile "Ash" "Ketchum" "Trainer"
              (Some (money 0.1 eq_refl)) client)])
    (list_to_map
       [(1, mkContract in_progress 1 2);
        (2, mkContract in_progress 3 2);
        (3, mkContract in_progress 4 2)])
    (list_to_map
       [(1, mkJob (money 15.85 eq_refl) false None 1);
        (2, mkJob (money 0.1 eq_refl) false None 2);
        (3, mkJob (money 0.2 eq_refl) false None 2);
        (4, mkJob (money 1 eq_refl) false None 3)]).


(** * Properties *)

(** ** Binary64 numbers *)

Lemma Prim2SF_nan x : Prim2SF x = S754_nan ↔ is_nan x = true.
Proof.
  unfold Prim2SF. destruct (is_nan x); [done|].
  destruct (is_zero x); [done|]. destruct (is_infinity x); [done|].
  destruct (Z.frexp x) as [r e].
  destruct (shr_fexp _ _ _ _ _) as [s e'].
  by destruct (shr_m s).
Qed.


Lemma SFcompare_nan_l y : SFcompare S754_nan y = None.
Proof. done. Qed.
Lemma SFcompare_nan_r x : SFcompare x S754_nan = None.
Proof. by destruct x as [[]|[]| |[] m e]. Qed.

Lemma SFcompare_Some x y :
  x ≠ S754_nan → y ≠ S754_nan → is_Some (SFcompare x y).
Proof.
  destruct x as [[]|[]| |[] m e], y as [[]|[]| |[] m' e']; try done; cbn; eauto.
Qed.

Lemma SFcompare_antisym x y :
  SFcompare y x = CompOpp <$> SFcompare x y.
Proof.
  destruct x as [[]|[]| |[] m e], y as [[]|[]| |[] m' e']; try done; cbn;
    rewrite (Z.compare_antisym e e');
    change Eq with (CompOpp Eq) at 1;
    rewrite <- (Pos.compare_cont_antisym m m' Eq);
    destruct (e ?= e'); cbn; try done; by destruct (Pos.compare_cont Eq m m').
Qed.

(** ** Comparisons of numbers *)

Lemma ltb_nan_l x y : is_nan x = true → (x <? y)%float = false.
Proof. intros H%Prim2SF_nan. rewrite ltb_spec, H. done. Qed.
Lemma ltb_nan_r x y : is_nan y = true → (x <? y)%float = false.
Proof.
  intros H%Prim2SF_nan. rewrite ltb_spec, H. unfold SFltb.
  by rewrite SFcompare_nan_r.
Qed.
Lemma leb_nan_l x y : is_nan x = true → (x <=? y)%float = false.
Proof. intros H%Prim2SF_nan. rewrite leb_spec, H. done. Qed.
Lemma leb_nan_r x y : is_nan y = true → (x <=? y)%float = false.
Proof.
  intros H%Prim2SF_nan. rewrite leb_spec, H. unfold SFleb.
  by rewrite SFcompare_nan_r.
Qed.

Lemma is_nan_false x : is_nan x = false ↔ Prim2SF x ≠ S754_nan.
Proof. rewrite Prim2SF_nan. by destruct (is_nan x). Qed.

Lemma ltb_negb_leb x y :
  is_nan x = false → is_nan y = false →
  (x <? y)%float = negb (y <=? x)%float.
Proof.
  intros Hx%is_nan_false Hy%is_nan_false. rewrite ltb_spec, leb_spec.
  unfold SFltb, SFleb. rewrite (SFcompare_antisym (Prim2SF x) (Prim2SF y)).
  destruct (SFcompare_Some _ _ Hx Hy) as [c ->]. by destruct c.
Qed.

Lemma ltb_true_not_nan x y :
  (x <? y)%float = true → is_nan x = false ∧ is_nan y = false.
Proof.
  intros H. split; apply not_true_is_false; intros Hn.
  - by rewrite ltb_nan_l in H.
  - by rewrite ltb_nan_r in H.
Qed.

Lemma leb_true_not_nan x y :
  (x <=? y)%float = true → is_nan x = false ∧ is_nan y = false.
Proof.
  intros H. split; apply not_true_is_false; intros Hn.
  - by rewrite leb_nan_l in H.
  - by rewrite leb_nan_r in H.
Qed.

Lemma ltb_leb_false x y : (x <? y)%float = true → (y <=? x)%float = false.
Proof.
  intros H. destruct (ltb_true_not_nan _ _ H) as [Hx Hy].
  rewrite (ltb_negb_leb _ _ Hx Hy) in H. by destruct (y <=? x)%float.
Qed.

Lemma ltb_leb x y : (x <? y)%float = true → (x <=? y)%float = true.
Proof.
  rewrite ltb_spec, leb_spec. unfold SFltb, SFleb.
  by destruct (SFcompare _ _) as [[]|].
Qed.


Lemma SFleb_rank x y :
  x ≠ S754_nan → y ≠ S754_nan →
  SFleb x y = true ↔ rank_le (rank x) (rank y).
Proof.
  intros Hx Hy. unfold SFleb, rank_le.
  destruct x as [[]|[]| |[] m e], y as [[]|[]| |[] m' e']; try done;
    cbn; try (split; [intros; lia|done]); try (split; [done|intros; lia]);
    change (Pos.compare_cont Eq m m') with (Pos.compare m m');
    destruct (Z.compare_spec e e'); cbn;
    try destruct (Pos.compare_spec m m'); cbn;
    split; try done; intros; lia.
Qed.

Lemma leb_rank x y :
  is_nan x = false → is_nan y = false →
  (x <=? y)%float = true ↔ rank_le (rank (Prim2SF x)) (rank (Prim2SF y)).
Proof.
  intros Hx%is_nan_false Hy%is_nan_false. rewrite leb_spec.
  by apply SFleb_rank.
Qed.

Lemma leb_total x y :
  is_nan x = false → is_nan y = false →
  (x <=? y)%float = true ∨ (y <=? x)%float = true.
Proof.
  intros Hx Hy. rewrite !leb_rank by done. unfold rank_le.
  destruct (rank (Prim2SF x)) as [[a b] c], (rank (Prim2SF y)) as [[a' b'] c'].
  cbn. lia.
Qed.

Lemma leb_trans x y z :
  (x <=? y)%float = true → (y <=? z)%float = true → (x <=? z)%float = true.
Proof.
  intros Hxy Hyz.
  destruct (leb_true_not_nan _ _ Hxy) as [Hx Hy].
  destruct (leb_true_not_nan _ _ Hyz) as [_ Hz].
  rewrite leb_rank in * by done. unfold rank_le in *.
  destruct (rank (Prim2SF x)) as [[a b] c], (rank (Prim2SF y)) as [[a' b'] c'],
    (rank (Prim2SF z)) as [[a'' b''] c''].
  cbn in *. lia.
Qed.

(** ** Rounding keeps the sign *)

Lemma shr_1_nonneg mrs : 0 ≤ shr_m mrs → 0 ≤ shr_m (shr_1 mrs).
Proof. destruct mrs as [[|[]|[]] r s]; cbn; lia. Qed.

Lemma iter_pos_shr_1_nonneg n mrs :
  0 ≤ shr_m mrs → 0 ≤ shr_m (SpecFloat.iter_pos shr_1 n mrs).
Proof.
  revert mrs. induction n as [n IH|n IH|]; intros mrs H; cbn.
  - by apply IH, IH, shr_1_nonneg.
  - by apply IH, IH.
  - by apply shr_1_nonneg.
Qed.

Lemma shr_fexp_nonneg m e l :
  0 ≤ m → 0 ≤ shr_m (shr_fexp prec emax m e l).1.
Proof.
  intros Hm. unfold shr_fexp, shr.
  assert (0 ≤ shr_m (shr_record_of_loc m l)) by (by destruct l as [|[]]).
  destruct (_ - e); cbn [fst]; try done.
  by apply iter_pos_shr_1_nonneg.
Qed.

Lemma round_nearest_even_nonneg m l : 0 ≤ m → 0 ≤ round_nearest_even m l.
Proof.
  intros Hm. destruct l as [|[]]; cbn; try lia.
  destruct (Z.even m); lia.
Qed.

Lemma binary_round_aux_signed s m e l :
  0 ≤ m → SFsigned s (binary_round_aux prec emax s m e l).
Proof.
  intros Hm. unfold binary_round_aux.
  pose proof (shr_fexp_nonneg m e l Hm) as H1.
  destruct (shr_fexp prec emax m e l) as [mrs' e']. cbn [fst] in H1.
  pose proof (shr_fexp_nonneg
                (round_nearest_even (shr_m mrs') (loc_of_shr_record mrs'))
                e' loc_Exact (round_nearest_even_nonneg _ _ H1)) as H2.
  destruct (shr_fexp prec emax _ e' loc_Exact) as [mrs'' e''].
  cbn [fst] in H2.
  destruct (shr_m mrs''); [done| |lia].
  by destruct (e'' <=? _).
Qed.

Lemma binary_round_signed s m e : SFsigned s (binary_round prec emax s m e).
Proof.
  unfold binary_round. destruct (shl_align _ _ _) as [mz ez].
  by apply binary_round_aux_signed.
Qed.

Lemma binary_normalize_nonneg m e :
  0 ≤ m → SFsigned false (binary_normalize prec emax m e false).
Proof.
  intros Hm. destruct m; [done| |lia]. apply binary_round_signed.
Qed.

Lemma SFsigned_nonneg x : SFsigned false x → SFnonneg x.
Proof. by destruct x as [[]|[]| |[] m e]. Qed.

Lemma SFadd_nonneg x y :
  SFnonneg x → SFnonneg y → SFnonneg (SFadd prec emax x y).
Proof.
  destruct x as [[]|[]| |[] m e], y as [[]|[]| |[] m' e']; try done.
  intros _ _. cbn [SFadd cond_Zopp].
  apply SFsigned_nonneg, binary_normalize_nonneg. lia.
Qed.

Lemma leb_0_nonneg x : (0 <=? x)%float = true ↔ SFnonneg (Prim2SF x).
Proof.
  rewrite leb_spec. change (Prim2SF 0) with (S754_zero false).
  by destruct (Prim2SF x) as [[]|[]| |[] m e].
Qed.

Lemma add_nonneg x y :
  (0 <=? x)%float = true → (0 <=? y)%float = true →
  (0 <=? x + y)%float = true.
Proof. rewrite !leb_0_nonneg, add_spec. apply SFadd_nonneg. Qed.

(** ** Subtraction below the minuend *)

Lemma digits2_pos_bounds m :
  2 ^ (Zpos (digits2_pos m) - 1) ≤ Zpos m < 2 ^ Zpos (digits2_pos m).
Proof.
  induction m as [m IH|m IH|]; cbn [digits2_pos]; [| |done].
  - rewrite Pos2Z.inj_succ.
    replace (Z.succ (Zpos (digits2_pos m)) - 1)
      with (Z.succ (Zpos (digits2_pos m) - 1)) by lia.
    rewrite !Z.pow_succ_r by lia. lia.
  - rewrite Pos2Z.inj_succ.
    replace (Z.succ (Zpos (digits2_pos m)) - 1)
      with (Z.succ (Zpos (digits2_pos m) - 1)) by lia.
    rewrite !Z.pow_succ_r by lia. lia.
Qed.

Lemma iter_xO m d : Zpos (Pos.iter xO m d) = Zpos m * 2 ^ Zpos d.
Proof.
  induction d as [|d IH] using Pos.peano_ind.
  - cbn. lia.
  - rewrite Pos.iter_succ, Pos2Z.inj_xO, IH, Pos2Z.inj_succ.
    rewrite Z.pow_succ_r by lia. lia.
Qed.

Lemma shl_align_same m e : shl_align m e e = (m, e).
Proof. unfold shl_align. by rewrite Z.sub_diag. Qed.

Lemma shl_align_lt m e e' :
  e' < e → Zpos (shl_align m e e').1 = Zpos m * 2 ^ (e - e').
Proof.
  intros He. unfold shl_align.
  destruct (e' - e) as [| |d] eqn:Hd; try lia.
  cbn [fst]. rewrite iter_xO. f_equal. f_equal. lia.
Qed.

(** Of two valid numbers, the one with the larger exponent has the larger
    mantissa once both are written with the smaller exponent. *)
Lemma bounded_exponent_lt m e m' e' :
  bounded prec emax m e = true → bounded prec emax m' e' = true →
  e' < e → Zpos m' < Zpos m * 2 ^ (e - e').
Proof.
  unfold bounded, canonical_mantissa, fexp, FloatOps.emin, SpecFloat.emin.
  intros [H1%Z.eqb_eq _]%andb_true_iff [H2%Z.eqb_eq _]%andb_true_iff He.
  pose proof (digits2_pos_bounds m) as Hm.
  pose proof (digits2_pos_bounds m') as Hm'.
  assert (Zpos (digits2_pos m) = prec) as Hd by lia.
  assert (Zpos (digits2_pos m') ≤ prec) as Hd' by lia.
  rewrite Hd in Hm.
  assert (2 ^ Zpos (digits2_pos m') ≤ 2 ^ prec)
    by (apply Z.pow_le_mono_r; lia).
  assert (2 ^ 1 ≤ 2 ^ (e - e')) by (apply Z.pow_le_mono_r; lia).
  change (2 ^ 1) with 2 in *.
  assert (2 ^ prec = 2 * 2 ^ (prec - 1)) as Hp by done.
  nia.
Qed.

Lemma SFsub_nonneg x y :
  valid_binary x = true → valid_binary y = true →
  SFnonneg y → (∀ s, y ≠ S754_infinity s) →
  x ≠ S754_nan → SFltb x y = false →
  SFnonneg (SFsub prec emax x y).
Proof.
  intros Vx Vy Hy Hfin Hx Hlt.
  destruct y as [sy|sy| |[] m' e']; try done; [|by destruct (Hfin sy)|].
  - (* the subtrahend is zero *)
    destruct x as [[]|[]| |[] m e]; try done; by destruct sy.
  - destruct x as [[]|[]| |[] m e]; try done.
    unfold SFltb in Hlt. cbn in Hlt, Vx, Vy.
    change (Pos.compare_cont Eq m m') with (Pos.compare m m') in Hlt.
    cbn [SFsub cond_Zopp].
    apply SFsigned_nonneg, binary_normalize_nonneg.
    destruct (Z.compare_spec e e') as [->|He|He]; try done.
    + rewrite Z.min_id, !shl_align_same. cbn [fst].
      destruct (Pos.compare_spec m m'); try done; lia.
    + rewrite Z.min_r by lia. rewrite shl_align_same. cbn [fst].
      rewrite shl_align_lt by done.
      pose proof (bounded_exponent_lt m e m' e' Vx Vy He). lia.
Qed.

Lemma Prim2SF_infinity x :
  is_infinity x = false → ∀ s, Prim2SF x ≠ S754_infinity s.
Proof.
  unfold is_infinity. rewrite FloatAxioms.eqb_spec, abs_spec.
  change (Prim2SF infinity) with (S754_infinity false).
  intros H s Hx. rewrite Hx in H. done.
Qed.

Lemma sub_nonneg x y :
  (0 <=? y)%float = true → is_infinity y = false →
  is_nan x = false → (x <? y)%float = false →
  (0 <=? x - y)%float = true.
Proof.
  rewrite !leb_0_nonneg, sub_spec, ltb_spec.
  intros Hy Hfin Hx%is_nan_false Hlt.
  apply SFsub_nonneg; try done; try apply Prim2SF_valid.
  by apply Prim2SF_infinity.
Qed.

(** ** A quarter of a number *)

Lemma mul_quarter_not_nan x :
  is_nan x = false → is_nan (x * 0.25)%float = false.
Proof.
  rewrite !is_nan_false, mul_spec.
  change (Prim2SF 0.25) with (S754_finite false 4503599627370496 (-54)).
  destruct (Prim2SF x) as [[]|[]| |s m e]; try done. intros _.
  unfold SF64mul. cbn [SFmul].
  pose proof (binary_round_aux_signed (xorb s false)
                (Zpos (m * 4503599627370496)) (e + -54) loc_Exact) as H.
  intros Hn. rewrite Hn in H. by apply H.
Qed.

Lemma ltb_0_not_zero x : (0 <? x)%float = true → is_zero x = false.
Proof.
  unfold is_zero. rewrite ltb_spec, FloatAxioms.eqb_spec.
  change (Prim2SF 0) with (S754_zero false).
  by destruct (Prim2SF x) as [[]|[]| |[] m e].
Qed.

(** ** Numeric columns *)

Lemma to_column_Some x r : to_column x = Some r → value r = x.
Proof.
  unfold to_column. destruct (Sumbool.sumbool_of_bool (is_nan x)); [done|].
  by intros [= <-].
Qed.

Lemma to_column_number x :
  is_nan x = false → ∃ r, to_column x = Some r ∧ value r = x.
Proof.
  intros Hx. unfold to_column.
  destruct (Sumbool.sumbool_of_bool (is_nan x)) as [H|H]; [congruence|].
  by eexists.
Qed.

Lemma to_column_NaN x : is_nan x = true → to_column x = None.
Proof.
  intros Hx. unfold to_column.
  destruct (Sumbool.sumbool_of_bool (is_nan x)) as [H|H]; [done|congruence].
Qed.

Lemma to_column_None x : to_column x = None → is_nan x = true.
Proof.
  unfold to_column. by destruct (Sumbool.sumbool_of_bool (is_nan x)).
Qed.

Lemma real_eq (a b : real) : value a = value b → a = b.
Proof.
  destruct a as [x Hx], b as [y Hy]. cbn. intros ->.
  f_equal. apply (proof_irrel _).
Qed.

Lemma to_column_value (r : real) : to_column (value r) = Some r.
Proof.
  destruct (to_column_number (value r) (value_is_number r)) as (r' & -> & H).
  f_equal. by apply real_eq.
Qed.

(** What is read from a column is never NaN: NULL compares as 0. *)
Lemma ToNumber_from_column c : is_nan (ToNumber (from_column c)) = false.
Proof. destruct c as [r|]; [apply value_is_number|done]. Qed.

Lemma parseFloat_from_column_to_column x :
  parseFloat (from_column (to_column x)) = parseFloat (VNum x).
Proof.
  destruct (is_nan x) eqn:Hx.
  - rewrite (to_column_NaN _ Hx). unfold from_column, parseFloat.
    apply Prim2SF_nan in Hx. unfold is_zero.
    rewrite FloatAxioms.eqb_spec, Hx. cbn. by apply Prim2SF_inj.
  - by destruct (to_column_number _ Hx) as (r & -> & <-).
Qed.

Lemma parseFloat_number x : is_zero x = false → parseFloat (VNum x) = x.
Proof. unfold parseFloat. by intros ->. Qed.

Lemma nonneg_to_column x : num_le 0 x = true → nonneg (to_column x) = true.
Proof.
  intros Hx. destruct (leb_true_not_nan _ _ Hx) as [_ Hn].
  by destruct (to_column_number _ Hn) as (r & -> & <-).
Qed.

Lemma parseFloat_nonneg x :
  num_le 0 x = true → num_le 0 (parseFloat (VNum x)) = true.
Proof. unfold parseFloat. by destruct (is_zero x). Qed.

Lemma parseFloat_not_nan x :
  is_nan x = false → is_nan (parseFloat (VNum x)) = false.
Proof. unfold parseFloat. by destruct (is_zero x). Qed.

Lemma parseFloat_finite x :
  is_infinity x = false → is_infinity (parseFloat (VNum x)) = false.
Proof. unfold parseFloat. by destruct (is_zero x). Qed.

(** ** String conversions, on examples *)

Example parseFloat_ex1 : parseFloat_string "-5abc" = (-5)%float.
Proof. reflexivity. Qed.
Example parseFloat_ex2 : parseFloat_string "  12.50e1x" = 125%float.
Proof. reflexivity. Qed.
Example parseFloat_ex3 : parseFloat_string "abc" = nan.
Proof. reflexivity. Qed.
Example parseFloat_ex4 : parseFloat_string "37.73" = 37.73%float.
Proof. reflexivity. Qed.
Example ToNumber_ex1 : ToNumber (VStr "-5abc") = nan.
Proof. reflexivity. Qed.
Example ToNumber_ex2 : ToNumber (VStr " 0x1f ") = 31%float.
Proof. reflexivity. Qed.
Example ToNumber_ex3 : ToNumber (VStr "1.5e-1") = 0.15%float.
Proof. reflexivity. Qed.
(** A no-break space (U+00A0, the bytes 194 and 160) is white space. *)
Example ToNumber_ex4 :
  ToNumber (VStr (String (ascii_of_nat 194) (String (ascii_of_nat 160) "100")))
  = 100%float.
Proof. reflexivity. Qed.
Example parseInt_ex1 : parseInt10 " -3px" = (-3)%float.
Proof. reflexivity. Qed.
Example parseInt_ex2 : parseInt10 "abc" = nan.
Proof. reflexivity. Qed.
(** The numeral of 2^53 + 1 reads as 2^53. *)
Example parseInt_ex3 :
  integer_value (parseInt10 "9007199254740993") = Some 9007199254740992.
Proof. reflexivity. Qed.

(** ** Filters over tables *)

Lemma map_to_list_filter_bool {A} (f : Z * A → bool) (P : Z * A → Prop)
    `{!∀ x, Decision (P x)} (m : gmap Z A) :
  (∀ x, f x = true ↔ P x) →
  map_to_list (filter P m) ≡ₚ List.filter f (map_to_list m).
Proof.
  intros Hf. apply NoDup_Permutation.
  - apply NoDup_map_to_list.
  - apply NoDup_ListNoDup, List.NoDup_filter, NoDup_ListNoDup.
    apply NoDup_map_to_list.
  - intros [i x]. rewrite elem_of_map_to_list, map_lookup_filter_Some.
    rewrite list_elem_of_In, filter_In, <- list_elem_of_In.
    rewrite elem_of_map_to_list, Hf. tauto.
Qed.


Lemma List_filter_Permutation {A} (h : A → bool) (l k : list A) :
  l ≡ₚ k → List.filter h l ≡ₚ List.filter h k.
Proof.
  induction 1 as [|x l k _ IH|x y l|l k m _ IH1 _ IH2]; cbn.
  - done.
  - destruct (h x); by rewrite IH.
  - destruct (h x), (h y); try done. apply perm_swap.
  - by etrans.
Qed.

(** A filter by a boolean test is the filter by the property it decides. *)
Lemma List_filter_Prop {A} (f : A → bool) (P : A → Prop)
    `{!∀ x, Decision (P x)} (l : list A) :
  (∀ x, f x = true ↔ P x) → List.filter f l = filter P l.
Proof.
  intros Hf. induction l as [|x l IH]; [done|].
  rewrite filter_cons. cbn [List.filter]. destruct (f x) eqn:Hx.
  - rewrite decide_True by (by apply Hf). by rewrite IH.
  - rewrite decide_False; [done|]. rewrite <- Hf. congruence.
Qed.

Lemma List_filter_filter {A} (f g : A → bool) (l : list A) :
  List.filter f (List.filter g l) = List.filter (λ x, g x && f x) l.
Proof.
  induction l as [|x l IH]; [done|]. cbn.
  destruct (g x); cbn; [|done]. destruct (f x); by rewrite IH.
Qed.

Lemma Qsum_Permutation (l k : list Q) : l ≡ₚ k → (Qsum l == Qsum k)%Q.
Proof.
  induction 1 as [|x l k _ IH|x y l|l k m _ IH1 _ IH2]; cbn.
  - reflexivity.
  - by rewrite IH.
  - ring.
  - by rewrite IH1.
Qed.

(** ** Settlement *)

Lemma Profile_findOne_Some st id ty p :
  Profile_findOne st id ty = Some p ↔ Profiles st !! id = Some p ∧ type p = ty.
Proof.
  unfold Profile_findOne. destruct (Profiles st !! id) as [q|];
    [case_decide|]; intuition congruence.
Qed.

Lemma pay_job_outcome st jobId clientId now :
  pay_outcome st jobId clientId now (pay_job st jobId clientId now).
Proof.
  unfold pay_job.
  destruct jobId as [id|]; [|by constructor].
  destruct (Jobs st !! id) as [job|] eqn:Hjob; [|by econstructor].
  destruct (paid job) eqn:Hpaid; [by econstructor|].
  destruct (Contracts st !! ContractId job) as [contract|] eqn:Hc;
    [|by econstructor].
  destruct (Profile_findOne st clientId client) as [payer|] eqn:Hp;
    [|by econstructor].
  destruct (lt_number (from_column (balance payer)) (value (price job)))
    eqn:Hlt; [by econstructor|].
  destruct (Profile_findOne st (ContractorId contract) contractor)
    as [performer|] eqn:Hq; [|by econstructor].
  by eapply pay_success.
Qed.

(** The balance guard of the handler is the negation of
    [balance >= price]: neither column holds NaN. *)
Lemma balance_guard (b : option real) (p : real) :
  lt_number (from_column b) (value p)
  = negb (num_ge (ToNumber (from_column b)) (value p)).
Proof.
  apply ltb_negb_leb; [apply ToNumber_from_column|apply value_is_number].
Qed.

Lemma funds_update_balance st id id' v :
  funds (update_balance st id v) id'
  = if decide (id = id')
    then _ ← Profiles st !! id; value <$> to_column v
    else funds st id'.
Proof.
  unfold funds, update_balance. cbn [Profiles]. case_decide as Hid.
  - subst id'. rewrite lookup_alter_eq. by destruct (Profiles st !! id).
  - by rewrite lookup_alter_ne.
Qed.

(** C1, against the specification's arithmetic.  In the ledger with
    amounts in cents, client 1 pays job 1: the balances 37.73 and 16.3 and
    the price 15.85 give the balances 21.879999999999995 and 32.15.  The
    payer's balance did not go down by exactly the price, and the two
    balances no longer add up to what they did, neither as rationals nor
    when added in binary64. *)
Lemma pay_job_rounds_the_balances :
  funds cents_sample 1 = Some 37.73%float ∧
  funds cents_sample 2 = Some 16.3%float ∧
  value <$> (price <$> Jobs cents_sample !! 1) = Some 15.85%float ∧
  status_code (pay_job cents_sample (Some 1) 1 1000).2 = 200 ∧
  funds (pay_job cents_sample (Some 1) 1 1000).1 1
  = Some 21.879999999999995%float ∧
  funds (pay_job cents_sample (Some 1) 1 1000).1 2 = Some 32.15%float ∧
  ¬ (exact_value 21.879999999999995
     == exact_value 37.73 - exact_value 15.85)%Q ∧
  ¬ (exact_value 21.879999999999995 + exact_value 32.15
     == exact_value 37.73 + exact_value 16.3)%Q ∧
  (21.879999999999995 + 32.15 <? 37.73 + 16.3)%float = true.
Proof.
  split_and!; try (vm_compute; reflexivity); vm_compute; discriminate.
Qed.

(** C1, as the handler has it.  A successful settlement writes two
    balances and no other: the payer's becomes the binary64 difference of
    his balance and the price, the performer's the binary64 sum of his
    balance and the price (for balances and a price that are numbers other
    than zero these are [b - p] and [c + p]; a NaN result is stored as
    NULL).  The payer and the performer are two profiles.  Whenever the two
    results are exact, the two balances add up to what they did. *)
Theorem pay_job_moves_the_price st jobId clientId now :
  status_code (pay_job st (Some jobId) clientId now).2 = 200 →
  let st' := (pay_job st (Some jobId) clientId now).1 in
  ∃ job contract payer performer,
    Jobs st !! jobId = Some job ∧
    Contracts st !! ContractId job = Some contract ∧
    Profiles st !! clientId = Some payer ∧
    Profiles st !! ContractorId contract = Some performer ∧
    clientId ≠ ContractorId contract ∧
    balance_at st' clientId = Some (to_column (debited payer job)) ∧
    balance_at st' (ContractorId contract)
    = Some (to_column (credited performer job)) ∧
    (∀ id, id ≠ clientId → id ≠ ContractorId contract →
           Profiles st' !! id = Profiles st !! id) ∧
    (∀ b c, balance payer = Some b → balance performer = Some c →
       is_zero (value b) = false → is_zero (value c) = false →
       is_zero (value (price job)) = false →
       debited payer job = (value b - value (price job))%float ∧
       credited performer job = (value c + value (price job))%float) ∧
    (∀ b c b' c',
       funds st clientId = Some b →
       funds st (ContractorId contract) = Some c →
       funds st' clientId = Some b' →
       funds st' (ContractorId contract) = Some c' →
       (exact_value b' == exact_value b - exact_price job)%Q →
       (exact_value c' == exact_value c + exact_price job)%Q →
       (exact_value b' + exact_value c' == exact_value b + exact_value c)%Q).
Proof.
  intros Hok st'. subst st'.
  destruct (pay_job_outcome st (Some jobId) clientId now)
    as [ | | | | | | |id job contract payer performer Hid Hjob Hpaid Hc Hp Hlt Hq];
    try (simpl in Hok; discriminate).
  injection Hid as <-.
  apply Profile_findOne_Some in Hp as [Hp Hpt].
  apply Profile_findOne_Some in Hq as [Hq Hqt].
  assert (clientId ≠ ContractorId contract) as Hne
    by (intros Heq; rewrite <- Heq in Hq; congruence).
  exists job, contract, payer, performer. split_and!; try done.
  - unfold balance_at. cbn.
    rewrite lookup_alter_ne by done. by rewrite lookup_alter_eq, Hp.
  - unfold balance_at. cbn.
    rewrite lookup_alter_eq. rewrite lookup_alter_ne by done. by rewrite Hq.
  - intros id' H1 H2. cbn.
    rewrite lookup_alter_ne by done. by rewrite lookup_alter_ne by done.
  - intros b c Hb Hcb Hzb Hzc Hzp. unfold debited, credited.
    rewrite Hb, Hcb. cbn [from_column].
    by rewrite !parseFloat_number by done.
  - intros b c b' c' _ _ _ _ Hb' Hc'. rewrite Hb', Hc'. ring.
Qed.

Lemma pay_job_moves_the_price_witness :
  funds (pay_job sample (Some 3) 1 1000).1 1 = Some (50 - 30)%float ∧
  funds (pay_job sample (Some 3) 1 1000).1 2 = Some (10 + 30)%float ∧
  (exact_value 20 + exact_value 40 == exact_value 50 + exact_value 10)%Q.
Proof.
  destruct (pay_job_moves_the_price sample 3 1 1000 eq_refl)
    as (job & contract & payer & performer & Hjob & Hc & Hp & Hq & _
        & Hb' & Hc' & _ & _ & Hsum).
  vm_compute in Hjob. injection Hjob as <-.
  vm_compute in Hc. injection Hc as <-.
  split_and!; [reflexivity..|].
  apply (Hsum 50%float 10%float 20%float 40%float); vm_compute; reflexivity.
Defined.

(** C2, against the specification's order: in the sample ledger job 2 is
    unpaid, its contract exists and client 1 exists, the contract's
    contractor has no profile, and the client's 50 do not cover the price
    of 200.  The first violated precondition in the specification's order is
    the performer's existence; the handler answers "Insufficient funds". *)
Lemma pay_job_reports_funds_before_performer :
  first_violated sample 2 1 spec_order PerformerExists ∧
  holds sample 2 1 SufficientFunds = false ∧
  (pay_job sample (Some 2) 1 1000).2 = failure SufficientFunds ∧
  (pay_job sample (Some 2) 1 1000).2 ≠ failure PerformerExists.
Proof.
  split_and!.
  - exists [JobExists; JobUnpaid; ContractExists; PayerExists],
           [SufficientFunds].
    split_and!; [reflexivity| |vm_compute; reflexivity].
    repeat constructor.
  - vm_compute; reflexivity.
  - vm_compute; reflexivity.
  - vm_compute. discriminate.
Qed.

Lemma first_violated_find st jobId payerId order c :
  first_violated st jobId payerId order c →
  first_failure st jobId payerId order = Some c.
Proof.
  intros (before & after & -> & Hbefore & Hc). unfold first_failure.
  induction Hbefore as [|d before Hd _ IH]; cbn.
  - by rewrite Hc.
  - by rewrite Hd.
Qed.

Lemma all_hold_find st jobId payerId order :
  Forall (λ d, holds st jobId payerId d = true) order →
  first_failure st jobId payerId order = None.
Proof.
  unfold first_failure. induction 1 as [|d l Hd _ IH]; cbn; [done|].
  by rewrite Hd.
Qed.

(** The handler is the decision list of the six checks in its own order. *)
Lemma pay_job_decision_list st jobId payerId now :
  match first_failure st jobId payerId handler_order with
  | Some c => pay_job st (Some jobId) payerId now = (st, failure c)
  | None => (pay_job st (Some jobId) payerId now).2
            = Resp 200 (Message "Payment successful")
  end.
Proof.
  unfold first_failure, handler_order, pay_job, Profile_findOne.
  cbn [List.find holds].
  destruct (Jobs st !! jobId) as [job|] eqn:Hjob.
  2:{ rewrite bool_decide_eq_false_2 by (by intros [? ?]). done. }
  rewrite bool_decide_eq_true_2 by eauto. cbn [negb].
  destruct (paid job); [done|]. cbn [negb].
  destruct (Contracts st !! ContractId job) as [contract|] eqn:Hc.
  2:{ rewrite bool_decide_eq_false_2 by (by intros [? ?]). done. }
  rewrite bool_decide_eq_true_2 by eauto. cbn [negb].
  destruct (Profiles st !! payerId) as [payer|] eqn:Hp; [|done].
  case_decide as Hty.
  2:{ by rewrite bool_decide_eq_false_2. }
  rewrite bool_decide_eq_true_2 by done. cbn [negb].
  rewrite balance_guard.
  destruct (num_ge (ToNumber (from_column (balance payer))) (value (price job)));
    cbn [negb]; [|done].
  destruct (Profiles st !! ContractorId contract) as [performer|]; [|done].
  case_decide.
  - by rewrite bool_decide_eq_true_2.
  - by rewrite bool_decide_eq_false_2.
Qed.

(** C2, as the handler has it.  The checks run in the order: job exists,
    job unpaid, contract exists, payer exists, payer's balance covers the
    price, performer exists.  For every store, job id, payer and date:
    whenever some precondition fails, the answer is the failure of the
    first one that fails in this order and the store is left as it was; the
    six failures are pairwise distinct; and when all six hold the payment
    goes through. *)
Theorem pay_job_first_failure st jobId payerId now :
  (∀ c, first_violated st jobId payerId handler_order c →
        pay_job st (Some jobId) payerId now = (st, failure c)) ∧
  (∀ c d, failure c = failure d → c = d) ∧
  (Forall (λ d, holds st jobId payerId d = true) handler_order →
   (pay_job st (Some jobId) payerId now).2
   = Resp 200 (Message "Payment successful")).
Proof.
  pose proof (pay_job_decision_list st jobId payerId now) as Hlist.
  split_and!.
  - intros c Hc. by rewrite (first_violated_find _ _ _ _ _ Hc) in Hlist.
  - intros [] []; cbn; intros [=]; reflexivity.
  - intros Hall. by rewrite (all_hold_find _ _ _ _ Hall) in Hlist.
Qed.

Lemma pay_job_first_failure_witness :
  pay_job sample (Some 2) 1 1000 = (sample, failure SufficientFunds).
Proof.
  apply (pay_job_first_failure sample 2 1 1000).
  exists [JobExists; JobUnpaid; ContractExists; PayerExists],
         [PerformerExists].
  split_and!; [reflexivity| |vm_compute; reflexivity].
  repeat constructor.
Defined.

(** C4.  A settlement that fails, whatever the failure, returns the store
    it was given: no balance and no job has changed.  In particular an
    unpaid job priced 80 under an existing contract, paid by a client whose
    balance is 50, is refused with "Insufficient funds" and the store is
    the same. *)
Theorem pay_job_failure_leaves_store :
  (∀ st jobId clientId now,
     status_code (pay_job st jobId clientId now).2 ≠ 200 →
     (pay_job st jobId clientId now).1 = st) ∧
  (∀ st jobId clientId now job contract payer b,
     Jobs st !! jobId = Some job → paid job = false →
     Contracts st !! ContractId job = Some contract →
     Profiles st !! clientId = Some payer → type payer = client →
     balance payer = Some b → value b = 50%float →
     value (price job) = 80%float →
     pay_job st (Some jobId) clientId now
     = (st, Resp 400 (Error "Insufficient funds"))).
Proof.
  split.
  - intros st jobId clientId now Hfail.
    by destruct (pay_job_outcome st jobId clientId now).
  - intros st jobId clientId now job contract payer b
      Hjob Hpaid Hc Hp Hty Hb Hb50 Hprice.
    unfold pay_job, Profile_findOne. rewrite Hjob, Hpaid, Hc, Hp.
    rewrite decide_True by done. rewrite Hb. cbn [from_column].
    unfold lt_number. cbn [ToNumber]. by rewrite Hb50, Hprice.
Qed.

Lemma pay_job_failure_leaves_store_witness :
  (pay_job sample (Some 1) 1 1000).1 = sample ∧
  pay_job sample (Some 1) 1 1000
  = (sample, Resp 400 (Error "Insufficient funds")).
Proof.
  destruct pay_job_failure_leaves_store as [Hfail Hscenario]. split.
  - apply Hfail. vm_compute. discriminate.
  - by apply (Hscenario sample 1 1 1000 (mkJob (money 80 eq_refl) false None 1)
                (mkContract in_progress 1 2)
                (mkProfile "Harry" "Potter" "Wizard"
                   (Some (money 50 eq_refl)) client) (money 50 eq_refl)).
Defined.

(** ** Deposits *)

Lemma owed_by_Outstanding st payerId j :
  owed_by st payerId j = true ↔ Outstanding st payerId j.
Proof.
  unfold owed_by, Outstanding. rewrite andb_true_iff, negb_true_iff.
  destruct (Contracts st !! ContractId j) as [c|].
  - rewrite andb_true_iff, !bool_decide_eq_true.
    split; [intros (? & ? & ?); eauto|].
    by intros (? & c' & [= <-] & ? & ?).
  - split; [by intros [_ ?]|]. by intros (_ & c & ? & _).
Qed.

Lemma owed_by_outstanding st payerId :
  List.filter (λ r, owed_by st payerId r.2) (map_to_list (Jobs st))
  ≡ₚ map_to_list (outstanding st payerId).
Proof.
  symmetry. apply map_to_list_filter_bool.
  intros r. apply owed_by_Outstanding.
Qed.

Section deposits.

Variable SUM : list real → num.

(** The cap is a number: the total is NULL or a number, and a quarter of a
    number is a number. *)
Lemma maxDeposit_not_nan st userId : is_nan (maxDeposit SUM st userId) = false.
Proof.
  unfold maxDeposit, mul_number, unpaidJobsTotal, Job_sum_price.
  destruct (sql_sum _ _) as [total|]; [|done].
  apply mul_quarter_not_nan. cbn [ToNumber].
  apply parseFloat_not_nan, value_is_number.
Qed.

(** C5, as the handler has it.  The cap is the binary64 product by 0.25
    of the total that the store's [SUM] gives for the prices of the payer's
    outstanding jobs (unpaid, contract in progress with this payer), taken
    in the order of the store; it is zero when there is no such job; and
    it is 50 when the only such job is priced 200, the total of the single
    price 200 being 200. *)
Theorem maxDeposit_is_quarter_of_total st payerId :
  (∃ rows,
     rows ≡ₚ map_to_list (outstanding st payerId) ∧
     maxDeposit SUM st payerId
     = (match sql_sum SUM ((λ r, price r.2) <$> rows) with
        | Some total => parseFloat (VNum (value total))
        | None => 0
        end * 0.25)%float) ∧
  (outstanding st payerId = ∅ → maxDeposit SUM st payerId = 0%float) ∧
  (∀ id job,
     outstanding st payerId = {[id := job]} →
     value (price job) = 200%float → SUM [price job] = 200%float →
     maxDeposit SUM st payerId = 50%float).
Proof.
  pose proof (owed_by_outstanding st payerId) as Hperm.
  unfold maxDeposit, mul_number, unpaidJobsTotal, Job_sum_price, num_mul.
  split_and!.
  - eexists. split; [exact Hperm|].
    by destruct (sql_sum _ _).
  - intros Hnone. rewrite Hnone, map_to_list_empty in Hperm.
    apply Permutation_nil_r in Hperm. by rewrite Hperm.
  - intros id job Hone Hprice Hsum.
    rewrite Hone, map_to_list_singleton in Hperm.
    apply Permutation_singleton_r in Hperm. rewrite Hperm.
    cbn [fmap list_fmap snd sql_sum]. rewrite Hsum.
    destruct (to_column_number 200%float eq_refl) as (total & -> & Htotal).
    cbn [ToNumber]. by rewrite Htotal.
Qed.

(** C6, as the handler has it.  For a client profile and a positive
    amount, the deposit succeeds exactly when the amount is at most the cap
    that the handler computed.  When it succeeds, the client's balance
    becomes the binary64 sum of the old balance and the amount (stored as
    NULL if it is NaN), this sum is what the response carries, and no other
    profile changes; when the amount is above the cap, the answer is the
    deposit-limit error carrying the cap, and the store is unchanged. *)
Theorem deposit_up_to_cap st userId payer a :
  Profiles st !! userId = Some payer → type payer = client →
  num_lt 0 a = true →
  let r := deposit SUM st (Some userId) (VNum a) in
  let cap := maxDeposit SUM st userId in
  let b' := num_add (parseFloat (from_column (balance payer))) a in
  (status_code r.2 = 200 ↔ num_le a cap = true) ∧
  (num_le a cap = true →
     r.2 = Resp 200 (DepositSuccess b') ∧
     balance_at r.1 userId = Some (to_column b') ∧
     ∀ id, id ≠ userId → Profiles r.1 !! id = Profiles st !! id) ∧
  (num_gt a cap = true →
     r.1 = st ∧ r.2 = Resp 400 (DepositLimitError cap)) ∧
  (∀ b, balance payer = Some b → is_zero (value b) = false →
        b' = (value b + a)%float).
Proof.
  intros Hp Hty Ha r cap b'. subst r cap b'.
  unfold deposit, Profile_findOne, le_number, gt_number. cbn [ToNumber].
  unfold num_gt, num_le. rewrite (ltb_leb_false _ _ Ha).
  rewrite Hp, decide_True by done.
  rewrite (parseFloat_number a) by (by apply ltb_0_not_zero).
  rewrite (ltb_negb_leb (maxDeposit SUM st userId) a)
    by (apply maxDeposit_not_nan || apply (ltb_true_not_nan _ _ Ha)).
  cbv zeta.
  destruct (a <=? maxDeposit SUM st userId)%float;
    cbn [negb fst snd status_code].
  - split_and!.
    + done.
    + intros _. split_and!; [done| |].
      * unfold balance_at. cbn. by rewrite lookup_alter_eq, Hp.
      * intros id Hid. cbn. by rewrite lookup_alter_ne.
    + done.
    + intros b Hb Hz. rewrite Hb. cbn [from_column].
      by rewrite parseFloat_number.
  - split_and!.
    + done.
    + done.
    + done.
    + intros b Hb Hz. rewrite Hb. cbn [from_column].
      by rewrite parseFloat_number.
Qed.

(** An amount that does not convert to a number is never refused: when
    [ToNumber] gives NaN, both comparisons of the handler are false, and
    for a client profile the deposit is answered 200 after writing the sum
    of the balance and of what [parseFloat] reads in the amount. *)
Lemma deposit_without_number st userId payer amount :
  Profiles st !! userId = Some payer → type payer = client →
  is_nan (ToNumber amount) = true →
  let b' := num_add (parseFloat (from_column (balance payer)))
                    (parseFloat amount) in
  deposit SUM st (Some userId) amount
  = (update_balance st userId b', Resp 200 (DepositSuccess b')).
Proof.
  intros Hp Hty Hnan b'. subst b'.
  unfold deposit, Profile_findOne, le_number, gt_number, num_le, num_gt.
  rewrite (leb_nan_l _ _ Hnan), (ltb_nan_r _ _ Hnan).
  by rewrite Hp, decide_True.
Qed.

(** A number that is zero or negative, and [null], are refused by the
    amount check. *)
Lemma deposit_rejects_nonpositive_number st userId a :
  num_le a 0 = true →
  deposit SUM st userId (VNum a)
  = (st, Resp 400 (Error "Invalid request")).
Proof.
  intros Ha. unfold deposit, le_number. cbn [ToNumber].
  rewrite Ha. by destruct userId.
Qed.

Lemma deposit_rejects_null st userId :
  deposit SUM st userId VNull = (st, Resp 400 (Error "Invalid request")).
Proof. by destruct userId. Qed.

Lemma deposit_sample_without_number amount :
  is_nan (ToNumber amount) = true →
  post_balances_deposit SUM sample "1" amount
  = (update_balance sample 1 (50 + parseFloat amount),
     Resp 200 (DepositSuccess (50 + parseFloat amount))).
Proof.
  intros H.
  exact (deposit_without_number sample 1 _ amount eq_refl eq_refl H).
Qed.

(** C7, at amounts that are not numbers.  In a request for client 1 of the
    sample ledger, a missing amount and the strings ["abc"] and ["-60abc"]
    pass the check [amount <= 0], because the comparison with NaN is false,
    and pass the cap for the same reason.  The deposit is answered with
    status 200, and the balance of the client, which was 50, becomes NULL
    (the NaN that is written), NULL and -10. *)
Lemma deposit_accepts_non_numeric_amount :
  balance_at sample 1 = Some (Some (money 50 eq_refl)) ∧
  post_balances_deposit SUM sample "1" VUndefined
  = (update_balance sample 1 nan, Resp 200 (DepositSuccess nan)) ∧
  post_balances_deposit SUM sample "1" (VStr "abc")
  = (update_balance sample 1 nan, Resp 200 (DepositSuccess nan)) ∧
  post_balances_deposit SUM sample "1" (VStr "-60abc")
  = (update_balance sample 1 (-10), Resp 200 (DepositSuccess (-10))) ∧
  balance_at (update_balance sample 1 nan) 1 = Some None ∧
  balance_at (update_balance sample 1 (-10)) 1
  = Some (Some (money (-10) eq_refl)).
Proof.
  split_and!; try reflexivity.
  - by rewrite (deposit_sample_without_number VUndefined).
  - by rewrite (deposit_sample_without_number (VStr "abc")).
  - by rewrite (deposit_sample_without_number (VStr "-60abc")).
Qed.

(** C3, at a deposit whose amount is the string ["-60abc"].  All balances
    of the sample ledger are at least zero; the deposit for client 1 is
    accepted and leaves the client with the balance -10, which is below
    zero. *)
Lemma deposit_drives_balance_negative :
  nonneg_balances sample ∧
  status_code (post_balances_deposit SUM sample "1" (VStr "-60abc")).2 = 200 ∧
  funds (post_balances_deposit SUM sample "1" (VStr "-60abc")).1 1
  = Some (-10)%float ∧
  num_lt (-10) 0 = true ∧
  ¬ nonneg_balances (post_balances_deposit SUM sample "1" (VStr "-60abc")).1.
Proof.
  rewrite (deposit_sample_without_number (VStr "-60abc")) by done.
  split_and!; try reflexivity.
  - apply map_Forall_to_list. vm_compute. repeat constructor.
  - intros H. specialize (H 1 _ eq_refl). vm_compute in H. discriminate.
Qed.

End deposits.

Lemma maxDeposit_is_quarter_of_total_witness :
  maxDeposit binary64_sum sample 4 = 0%float ∧
  maxDeposit binary64_sum
    (mkStore (Profiles sample) {[1 := mkContract in_progress 1 2]}
             {[1 := mkJob (money 200 eq_refl) false None 1]}) 1
  = 50%float.
Proof.
  split.
  - apply maxDeposit_is_quarter_of_total. vm_compute. reflexivity.
  - apply (maxDeposit_is_quarter_of_total binary64_sum _ 1)
      with (id := 1) (job := mkJob (money 200 eq_refl) false None 1).
    + vm_compute. reflexivity.
    + reflexivity.
    + reflexivity.
Defined.

(** C5, against the specification's arithmetic.  In the ledger with
    amounts in cents the outstanding jobs of client 3 are priced 0.1 and
    0.2.  A store that adds them up in binary64 gives the cap
    0.07500000000000001, which is not 25% of the sum of the two prices: it
    is above it. *)
Lemma maxDeposit_is_not_the_exact_quarter :
  (spec_MaxDeposit cents_sample 3
   == (25 # 100) * (exact_value 0.1 + exact_value 0.2))%Q ∧
  maxDeposit binary64_sum cents_sample 3 = 0.07500000000000001%float ∧
  ¬ (exact_value (maxDeposit binary64_sum cents_sample 3)
     == spec_MaxDeposit cents_sample 3)%Q ∧
  (spec_MaxDeposit cents_sample 3
   < exact_value (maxDeposit binary64_sum cents_sample 3))%Q.
Proof.
  split_and!; try (vm_compute; reflexivity). vm_compute. discriminate.
Qed.

Lemma deposit_up_to_cap_witness :
  (deposit binary64_sum sample (Some 1) (VNum 77.5)).2
  = Resp 200 (DepositSuccess (50 + 77.5)) ∧
  (deposit binary64_sum sample (Some 1) (VNum 78)).1 = sample.
Proof.
  pose proof (deposit_up_to_cap binary64_sum sample 1
                (mkProfile "Harry" "Potter" "Wizard"
                   (Some (money 50 eq_refl)) client)) as H.
  split.
  - by apply (H 77.5%float eq_refl eq_refl eq_refl).
  - by apply (H 78%float eq_refl eq_refl eq_refl).
Defined.

(** C6, against the specification's arithmetic.  In the ledger with
    amounts in cents client 4 has balance 0.1 and the cap 0.25; the deposit
    of 0.2 is accepted and the new balance, written and returned, is
    0.30000000000000004: the balance did not increase by exactly the
    amount. *)
Lemma deposit_rounds_the_balance :
  funds cents_sample 4 = Some 0.1%float ∧
  maxDeposit binary64_sum cents_sample 4 = 0.25%float ∧
  (deposit binary64_sum cents_sample (Some 4) (VNum 0.2)).2
  = Resp 200 (DepositSuccess 0.30000000000000004) ∧
  funds (deposit binary64_sum cents_sample (Some 4) (VNum 0.2)).1 4
  = Some 0.30000000000000004%float ∧
  ¬ (exact_value 0.30000000000000004
     == exact_value 0.1 + exact_value 0.2)%Q.
Proof.
  split_and!; try (vm_compute; reflexivity). vm_compute. discriminate.
Qed.

(** ** Grouping and ordering *)


Lemma sql_le_total a b : sql_le a b = true ∨ sql_le b a = true.
Proof.
  destruct a as [x|], b as [y|]; cbn; auto.
  apply leb_total; apply value_is_number.
Qed.

Lemma sql_le_trans a b c :
  sql_le a b = true → sql_le b c = true → sql_le a c = true.
Proof.
  destruct a as [x|], b as [y|], c as [z|]; cbn; try done.
  apply leb_trans.
Qed.

Section grouping.
Context {K : Type} `{EqDecision K}.
Variable SUM : list real → num.

#[global] Instance total_ge_total : Total (@total_ge K).
Proof.
  intros a b. unfold total_ge. rewrite !Is_true_true.
  destruct (sql_le_total a.2 b.2); auto.
Qed.

#[global] Instance total_ge_trans : Transitive (@total_ge K).
Proof.
  intros a b c. unfold total_ge. rewrite !Is_true_true.
  intros Hab Hbc. exact (sql_le_trans _ _ _ Hbc Hab).
Qed.

Lemma total_ge_le (a b : K * option real) :
  total_ge a b ↔ sql_le b.2 a.2 = true.
Proof. unfold total_ge. by rewrite Is_true_true. Qed.



Lemma elem_of_group_totals (rows : list (K * real)) k s :
  (k, s) ∈ group_totals SUM rows ↔ k ∈ rows.*1 ∧ s = total_of SUM k rows.
Proof.
  unfold group_totals. rewrite list_elem_of_fmap. split.
  - intros (k' & [= -> ->] & Hk). split; [|done].
    by rewrite elem_of_remove_dups in Hk.
  - intros [Hk ->]. exists k. by rewrite elem_of_remove_dups.
Qed.


Lemma group_totals_keys (rows : list (K * real)) :
  (group_totals SUM rows).*1 = remove_dups rows.*1.
Proof.
  unfold group_totals. generalize (remove_dups rows.*1). intros l.
  induction l as [|k l IH]; [done|]. cbn. by f_equal.
Qed.

End grouping.

(** ** Reports *)

Lemma paid_between_PaidBetween start end_ j :
  paid_between start end_ j = true ↔ PaidBetween start end_ j.
Proof.
  unfold paid_between, PaidBetween. rewrite andb_true_iff.
  destruct (paymentDate j) as [d|].
  - rewrite andb_true_iff, !Z.leb_le. split; [intros (? & ? & ?); eauto|].
    by intros (? & d' & [= <-] & ? & ?).
  - split; [by intros [_ ?]|]. by intros (_ & d & ? & _).
Qed.

Lemma paid_jobs_settled_rows st start end_ :
  paid_jobs st start end_ = settled_rows st start end_.
Proof.
  apply List_filter_Prop. intros r. apply paid_between_PaidBetween.
Qed.

Lemma elem_of_settled_rows st start end_ id j :
  (id, j) ∈ settled_rows st start end_ ↔ settled st start end_ !! id = Some j.
Proof.
  unfold settled_rows, settled.
  rewrite list_elem_of_filter, elem_of_map_to_list, map_lookup_filter_Some.
  cbn. tauto.
Qed.




Section reports.

Variable SUM : list real → num.





(** The limit of the best-clients query when the parameter is missing, and
    when it does not start with a number or reads as zero. *)
Lemma limit_option_default : limit_option None = 2%float.
Proof. reflexivity. Qed.

Lemma limit_option_fallback s :
  is_nan (parseInt10 s) = true ∨ is_zero (parseInt10 s) = true →
  limit_option (Some s) = 2%float.
Proof. unfold limit_option, isNaN. by intros [-> | ->]; rewrite ?orb_true_r. Qed.

Lemma limit_option_parsed s :
  is_nan (parseInt10 s) = false → is_zero (parseInt10 s) = false →
  limit_option (Some s) = parseInt10 s.
Proof. unfold limit_option, isNaN. by intros -> ->. Qed.

Lemma bestClients_all_rows st start end_ limit :
  limit < 0 →
  length (bestClients SUM st start end_ limit)
  = length (remove_dups (client_payments st start end_).*1).
Proof.
  intros Hneg. unfold bestClients, sql_limit.
  rewrite (proj2 (Z.ltb_lt _ _) Hneg), length_fmap.
  unfold order_by_total_desc.
  rewrite (Permutation_length (merge_sort_Permutation _ _)).
  by rewrite <- (group_totals_keys SUM), length_fmap.
Qed.

(** C9, at the limit ["-1"].  [parseInt] reads -1, which is not falsy, so
    the query runs with [LIMIT -1] and not with the default: over the three
    paying clients of the sample the report has three rows. *)
Lemma best_clients_negative_limit :
  limit_option (Some "-1") = (-1)%float ∧
  limit_clause (-1) = Some (-1) ∧
  ∃ rows,
    best_clients SUM settled_sample (Some 0) (Some 100) (Some "-1")
    = Resp 200 (BestClients rows) ∧
    length rows = 3%nat.
Proof.
  split_and!; [reflexivity..|]. eexists. split; [reflexivity|].
  by rewrite bestClients_all_rows.
Qed.

End reports.



(** ** Listing the active contracts *)

Lemma active_for_ActiveFor profileId c :
  active_for profileId c = true ↔ ActiveFor profileId c.
Proof.
  unfold active_for, ActiveFor.
  rewrite andb_true_iff, orb_true_iff, !bool_decide_eq_true. tauto.
Qed.

Lemma elem_of_Contract_findAll st where_ id c :
  (id, c) ∈ Contract_findAll st where_ ↔
  Contracts st !! id = Some c ∧ where_ c = true.
Proof.
  unfold Contract_findAll.
  rewrite list_elem_of_In, filter_In, <- list_elem_of_In.
  by rewrite elem_of_map_to_list.
Qed.

(** C10, against the specification: profile 3 has no contract at all in the
    sample ledger, and the answer is the 404 with the message, not the
    empty list. *)
Lemma get_contracts_none_is_404 :
  (∀ id c, Contracts sample !! id = Some c → ¬ ActiveFor 3 c) ∧
  get_contracts sample 3 = Resp 404 (Message "No active contracts found") ∧
  get_contracts sample 3 ≠ Resp 200 (ContractList []).
Proof.
  split_and!; [|reflexivity|discriminate].
  apply map_Forall_to_list. vm_compute.
  repeat (constructor; [intros [_ [?|?]]; discriminate|]). constructor.
Qed.

(** C10, as the handler has it.  For a profile without a contract in
    progress in which it is payer or performer, the answer is status 404
    with the message "No active contracts found"; otherwise it is status
    200 with the contracts in progress of the profile, and this list is not
    empty. *)
Theorem get_contracts_none_active st profileId :
  ((∀ id c, Contracts st !! id = Some c → ¬ ActiveFor profileId c) →
   get_contracts st profileId
   = Resp 404 (Message "No active contracts found")) ∧
  (∀ id c, Contracts st !! id = Some c → ActiveFor profileId c →
   ∃ rows,
     get_contracts st profileId = Resp 200 (ContractList rows) ∧
     rows ≠ [] ∧
     ∀ id' c', (id', c') ∈ rows ↔
               Contracts st !! id' = Some c' ∧ ActiveFor profileId c').
Proof.
  unfold get_contracts.
  destruct (Contract_findAll st (active_for profileId))
    as [|[id0 c0] rows] eqn:Hrows; cbn [length Nat.eqb].
  - split; [done|]. intros id c Hc Hactive.
    assert ((id, c) ∈ Contract_findAll st (active_for profileId)) as Hin
      by (by apply elem_of_Contract_findAll, conj, active_for_ActiveFor).
    rewrite Hrows in Hin. by apply elem_of_nil in Hin.
  - split.
    + intros Hnone.
      assert ((id0, c0) ∈ Contract_findAll st (active_for profileId)) as Hin
        by (rewrite Hrows; by left).
      apply elem_of_Contract_findAll in Hin as [Hc0 Ha%active_for_ActiveFor].
      by destruct (Hnone id0 c0).
    + intros _ _ _ _. eexists. split_and!; [done..|].
      intros id' c'. rewrite <- Hrows, elem_of_Contract_findAll.
      by rewrite active_for_ActiveFor.
Qed.

Lemma get_contracts_none_active_witness :
  get_contracts sample 3 = Resp 404 (Message "No active contracts found") ∧
  ∃ rows, get_contracts sample 2 = Resp 200 (ContractList rows) ∧ rows ≠ [].
Proof.
  split.
  - apply get_contracts_none_active.
    apply map_Forall_to_list. vm_compute.
    repeat (constructor; [intros [_ [?|?]]; discriminate|]). constructor.
  - destruct (get_contracts_none_active sample 2) as [_ H].
    destruct (H 1 (mkContract in_progress 1 2) eq_refl) as (rows & ? & ? & _).
    + split; [reflexivity|by right].
    + eauto.
Defined.

(** * Further properties of the handlers *)

(** ** Settlement: the job row and the rest of the store *)

(** A settlement that succeeds marks the job paid at the date of the
    request and keeps its price and contract; no other job and no contract
    changes. *)
Theorem pay_job_marks_job_paid st jobId clientId now :
  status_code (pay_job st (Some jobId) clientId now).2 = 200 →
  let st' := (pay_job st (Some jobId) clientId now).1 in
  ∃ job,
    Jobs st !! jobId = Some job ∧ paid job = false ∧
    Jobs st' !! jobId
    = Some (mkJob (price job) true (Some now) (ContractId job)) ∧
    (∀ id, id ≠ jobId → Jobs st' !! id = Jobs st !! id) ∧
    Contracts st' = Contracts st.
Proof.
  intros Hok st'. subst st'.
  destruct (pay_job_outcome st (Some jobId) clientId now)
    as [ | | | | | | |id job contract payer performer Hid Hjob Hpaid Hc Hp Hlt Hq];
    try (simpl in Hok; discriminate).
  injection Hid as <-. exists job. cbn. split_and!; try done.
  - by rewrite lookup_alter_eq, Hjob.
  - intros id Hid. by rewrite lookup_alter_ne.
Qed.

Lemma pay_job_marks_job_paid_witness :
  Jobs (pay_job sample (Some 3) 1 1000).1 !! 3
  = Some (mkJob (money 30 eq_refl) true (Some 1000) 1) ∧
  Jobs (pay_job sample (Some 3) 1 1000).1 !! 1 = Jobs sample !! 1.
Proof.
  destruct (pay_job_marks_job_paid sample 3 1 1000 eq_refl)
    as (job & Hjob & _ & Hnew & Hother & _).
  vm_compute in Hjob. injection Hjob as <-.
  split; [exact Hnew|]. by apply Hother.
Defined.

(** A job is settled at most once: after a settlement that succeeded,
    every further request to pay the same job, by whatever profile and at
    whatever date, is answered "Job is already paid" and changes nothing. *)
Theorem pay_job_settles_once st jobId clientId now :
  status_code (pay_job st (Some jobId) clientId now).2 = 200 →
  let st' := (pay_job st (Some jobId) clientId now).1 in
  ∀ clientId' now',
    pay_job st' (Some jobId) clientId' now'
    = (st', Resp 400 (Error "Job is already paid")).
Proof.
  intros Hok st' clientId' now'. subst st'.
  destruct (pay_job_outcome st (Some jobId) clientId now)
    as [ | | | | | | |id job contract payer performer Hid Hjob Hpaid Hc Hp Hlt Hq];
    try (simpl in Hok; discriminate).
  injection Hid as <-. cbn [fst]. unfold pay_job at 1.
  cbn [Jobs update_paid update_balance]. by rewrite lookup_alter_eq, Hjob.
Qed.

Lemma pay_job_settles_once_witness :
  pay_job (pay_job sample (Some 3) 1 1000).1 (Some 3) 4 2000
  = ((pay_job sample (Some 3) 1 1000).1,
     Resp 400 (Error "Job is already paid")).
Proof. exact (pay_job_settles_once sample 3 1 1000 eq_refl 4 2000). Defined.

(** The handler looks neither at the status of the contract nor at its
    client: with another status and another client on a contract, every
    request to pay gets the same answer and leaves the same profiles and
    jobs. *)
Theorem pay_job_ignores_status_and_client st cid c s x jobId clientId now :
  Contracts st !! cid = Some c →
  let st2 :=
    mkStore (Profiles st)
      (<[cid := mkContract s x (ContractorId c)]> (Contracts st)) (Jobs st) in
  (pay_job st2 jobId clientId now).2 = (pay_job st jobId clientId now).2 ∧
  Profiles (pay_job st2 jobId clientId now).1
  = Profiles (pay_job st jobId clientId now).1 ∧
  Jobs (pay_job st2 jobId clientId now).1
  = Jobs (pay_job st jobId clientId now).1.
Proof.
  intros Hc st2. subst st2. unfold pay_job, Profile_findOne.
  cbn [Profiles Contracts Jobs].
  destruct jobId as [jobId|]; [|done].
  destruct (Jobs st !! jobId) as [job|]; [|done].
  destruct (paid job); [done|].
  destruct (decide (cid = ContractId job)) as [->|Hne].
  - rewrite lookup_insert_eq, Hc. cbn [ContractorId].
    destruct (Profiles st !! clientId) as [payer|]; [|done].
    case_decide; [|done].
    destruct (lt_number (from_column (balance payer)) (value (price job)));
      [done|].
    destruct (Profiles st !! ContractorId c) as [performer|]; [|done].
    by case_decide.
  - rewrite lookup_insert_ne by done.
    destruct (Contracts st !! ContractId job) as [contract|]; [|done].
    destruct (Profiles st !! clientId) as [payer|]; [|done].
    case_decide; [|done].
    destruct (lt_number (from_column (balance payer)) (value (price job)));
      [done|].
    destruct (Profiles st !! ContractorId contract) as [performer|]; [|done].
    by case_decide.
Qed.

Lemma pay_job_ignores_status_and_client_witness :
  (pay_job
     (mkStore (Profiles sample)
        (<[1 := mkContract terminated 4 2]> (Contracts sample))
        (Jobs sample))
     (Some 3) 1 1000).2
  = Resp 200 (Message "Payment successful").
Proof.
  destruct (pay_job_ignores_status_and_client sample 1
              (mkContract in_progress 1 2) terminated 4 (Some 3) 1 1000
              eq_refl) as (Hresp & _ & _).
  exact Hresp.
Defined.

(** ** Settlement and the deposit cap *)

(** Paying a job takes it out of the outstanding jobs of every payer and
    changes nothing else in them; for a payer who had it among his
    outstanding jobs, the cap of the specification goes down by a quarter
    of the price. *)
Theorem pay_job_removes_outstanding st jobId clientId now :
  status_code (pay_job st (Some jobId) clientId now).2 = 200 →
  let st' := (pay_job st (Some jobId) clientId now).1 in
  ∀ payerId,
    outstanding st' payerId = delete jobId (outstanding st payerId) ∧
    ∀ job, outstanding st payerId !! jobId = Some job →
      (spec_MaxDeposit st' payerId
       == spec_MaxDeposit st payerId - (25 # 100) * exact_price job)%Q.
Proof.
  intros Hok st' payerId. subst st'.
  assert (outstanding (pay_job st (Some jobId) clientId now).1 payerId
          = delete jobId (outstanding st payerId)) as Heq.
  { destruct (pay_job_outcome st (Some jobId) clientId now)
      as [ | | | | | | |id job contract payer performer Hid Hjob Hpaid Hc Hp Hlt Hq];
      try (simpl in Hok; discriminate).
    injection Hid as <-. unfold outstanding. cbn [fst Jobs update_paid].
    rewrite (alter_alt_Some _ _ _ _ Hjob).
    rewrite <- map_filter_delete.
    rewrite map_filter_insert_False by (by intros [? _]).
    apply map_filter_ext. intros id j _. unfold Outstanding. by cbn. }
  split; [done|]. intros job Hjob. unfold spec_MaxDeposit. rewrite Heq.
  rewrite (Qsum_Permutation
             (exact_price <$> (map_to_list (outstanding st payerId)).*2)
             (exact_price <$> ((jobId, job)
                         :: map_to_list (delete jobId
                                           (outstanding st payerId))).*2)).
  2:{ by rewrite map_to_list_delete. }
  cbn. unfold Qsum. ring.
Qed.

Lemma pay_job_removes_outstanding_witness :
  outstanding (pay_job sample (Some 3) 1 1000).1 1
  = delete 3 (outstanding sample 1) ∧
  Qeq (spec_MaxDeposit (pay_job sample (Some 3) 1 1000).1 1)
      (spec_MaxDeposit sample 1 - (25 # 100) * exact_value 30).
Proof.
  destruct (pay_job_removes_outstanding sample 3 1 1000 eq_refl 1)
    as [Heq Hcap].
  split; [exact Heq|].
  apply (Hcap (mkJob (money 30 eq_refl) false None 1)). vm_compute. reflexivity.
Defined.

(** ** Balances that stay at least zero *)

(** [parseFloat] of a number compares as the number does. *)
Lemma Prim2SF_parseFloat x :
  Prim2SF (parseFloat (VNum x))
  = match Prim2SF x with
    | S754_zero _ => S754_zero false
    | y => y
    end.
Proof.
  unfold parseFloat, is_zero. rewrite FloatAxioms.eqb_spec.
  change (Prim2SF 0) with (S754_zero false).
  destruct (Prim2SF x) as [s|s| |s m e] eqn:Hx; try done; by destruct s.
Qed.

Lemma ltb_parseFloat x y :
  (parseFloat (VNum x) <? parseFloat (VNum y))%float = (x <? y)%float.
Proof.
  rewrite !ltb_spec, !Prim2SF_parseFloat.
  by destruct (Prim2SF x) as [[]|[]| |[] m e],
              (Prim2SF y) as [[]|[]| |[] m' e'].
Qed.

Lemma nonneg_update_balance st id v :
  nonneg_balances st → num_le 0 v = true →
  nonneg_balances (update_balance st id v).
Proof.
  intros Hst Hv i p. cbn. rewrite lookup_alter_Some.
  intros [(_ & q & _ & ->)|[_ Hp]]; [|by apply (Hst i)].
  cbn. by apply nonneg_to_column.
Qed.

Lemma nonneg_balance p :
  nonneg (balance p) = true →
  num_le 0 (parseFloat (from_column (balance p))) = true ∧
  ∃ b, balance p = Some b.
Proof.
  destruct (balance p) as [b|]; [|done]. cbn [nonneg from_column].
  intros Hb. split; [by apply parseFloat_nonneg|by exists b].
Qed.

(** When no job has a negative or an infinite price, a request to pay
    keeps every balance a number at least zero: the balance guard protects
    the payer and the credit cannot lower the contractor. *)
Theorem pay_job_keeps_nonneg st jobId clientId now :
  (∀ id j, Jobs st !! id = Some j → nonneg_price j) →
  nonneg_balances st →
  nonneg_balances (pay_job st jobId clientId now).1.
Proof.
  intros Hprice Hst.
  destruct (pay_job_outcome st jobId clientId now)
    as [ | | | | | | |id job contract payer performer _ Hjob _ _ Hp Hlt Hq];
    try done.
  apply Profile_findOne_Some in Hp as [Hp _].
  apply Profile_findOne_Some in Hq as [Hq _].
  apply Hprice in Hjob as [Hpos Hfin]. apply Hst in Hp, Hq. cbn in Hp, Hq.
  apply nonneg_balance in Hp as [Hp [b Hb]].
  apply nonneg_balance in Hq as [Hq _].
  apply nonneg_update_balance; [apply nonneg_update_balance; [done|]|].
  - unfold debited, num_sub. apply sub_nonneg.
    + by apply parseFloat_nonneg.
    + by apply parseFloat_finite.
    + by destruct (leb_true_not_nan _ _ Hp).
    + rewrite Hb in *. cbn [from_column] in *. by rewrite ltb_parseFloat.
  - unfold credited, num_add. apply add_nonneg; [done|].
    by apply parseFloat_nonneg.
Qed.

Lemma pay_job_keeps_nonneg_witness :
  nonneg_balances (pay_job sample (Some 3) 1 1000).1.
Proof.
  apply pay_job_keeps_nonneg.
  - apply map_Forall_to_list. vm_compute. repeat constructor.
  - apply map_Forall_to_list. vm_compute. repeat constructor.
Defined.

Section deposits_more.

Variable SUM : list real → num.

(** A deposit whose amount is a JSON number keeps every balance a number
    at least zero, whatever the answer. *)
Theorem deposit_number_keeps_nonneg st userId a :
  is_nan a = false →
  nonneg_balances st →
  nonneg_balances (deposit SUM st userId (VNum a)).1.
Proof.
  intros Ha Hst. unfold deposit, le_number, gt_number. cbn [ToNumber].
  destruct userId as [userId|]; [|done].
  destruct (num_le a 0) eqn:Hle; [done|].
  destruct (Profile_findOne st userId client) as [payer|] eqn:Hp; [|done].
  destruct (num_gt a (maxDeposit SUM st userId)); [done|].
  apply Profile_findOne_Some in Hp as [Hp _]. apply Hst in Hp. cbn in Hp.
  apply nonneg_balance in Hp as [Hp _]. cbn [fst].
  apply nonneg_update_balance; [done|].
  apply add_nonneg; [done|]. apply parseFloat_nonneg.
  destruct (leb_total a 0 Ha eq_refl) as [H|H]; [|done].
  unfold num_le in Hle. congruence.
Qed.

(** ** Deposits: what is written and what is not *)

Lemma maxDeposit_same_jobs (st st' : Store) userId :
  Jobs st' = Jobs st → Contracts st' = Contracts st →
  maxDeposit SUM st' userId = maxDeposit SUM st userId.
Proof.
  intros Hj Hc. unfold maxDeposit, unpaidJobsTotal, owed_by.
  by rewrite Hj, Hc.
Qed.

(** The answers of the deposit handler, each with the store it leaves. *)
Lemma deposit_cases st userId amount :
  deposit SUM st userId amount = (st, Resp 400 (Error "Invalid request")) ∨
  deposit SUM st userId amount = (st, Resp 404 (Error "Client not found")) ∨
  (∃ id, userId = Some id ∧
         deposit SUM st userId amount
         = (st, Resp 400 (DepositLimitError (maxDeposit SUM st id)))) ∨
  (∃ id payer,
     userId = Some id ∧ Profiles st !! id = Some payer ∧
     type payer = client ∧
     le_number amount 0 = false ∧
     gt_number amount (maxDeposit SUM st id) = false ∧
     let b' := num_add (parseFloat (from_column (balance payer)))
                       (parseFloat amount) in
     deposit SUM st userId amount
     = (update_balance st id b', Resp 200 (DepositSuccess b'))).
Proof.
  unfold deposit. destruct userId as [id|]; [|by left].
  destruct (le_number amount 0) eqn:Hle; [by left|].
  destruct (Profile_findOne st id client) as [payer|] eqn:Hp;
    [|by right; left].
  destruct (gt_number amount (maxDeposit SUM st id)) eqn:Hgt.
  - right; right; left. by exists id.
  - right; right; right. apply Profile_findOne_Some in Hp as [Hp Hty].
    by exists id, payer.
Qed.

(** A deposit that is not answered with status 200 leaves the store as it
    was, whatever the user id and the amount sent. *)
Theorem deposit_failure_leaves_store st userId amount :
  status_code (deposit SUM st userId amount).2 ≠ 200 →
  (deposit SUM st userId amount).1 = st.
Proof.
  intros Hfail.
  destruct (deposit_cases st userId amount)
    as [H|[H|[(id & _ & H)|(id & payer & _ & _ & _ & _ & _ & H)]]];
    rewrite H in *; try done.
Qed.

(** A deposit writes one column of one row: whatever the request, the
    contracts and the jobs stay as they were, so does every profile other
    than the one named, no profile appears or disappears, and the profile
    named keeps its names, its profession and its type. *)
Theorem deposit_writes_one_balance st userId amount :
  let st' := (deposit SUM st userId amount).1 in
  Contracts st' = Contracts st ∧ Jobs st' = Jobs st ∧
  (∀ id, userId ≠ Some id → Profiles st' !! id = Profiles st !! id) ∧
  dom (Profiles st') = dom (Profiles st) ∧
  (∀ id p p',
     Profiles st !! id = Some p → Profiles st' !! id = Some p' →
     firstName p' = firstName p ∧ lastName p' = lastName p ∧
     profession p' = profession p ∧ type p' = type p).
Proof.
  intros st'. subst st'.
  destruct (deposit_cases st userId amount)
    as [H|[H|[(id & _ & H)|(id & payer & -> & Hp & _ & _ & _ & H)]]];
    rewrite H; cbn [fst];
    try (split_and!; [done..|]; intros id' p p' Hp Hp';
         rewrite Hp in Hp'; by injection Hp' as <-).
  cbn. split_and!; try done.
  - intros id' Hne. rewrite lookup_alter_ne; [done|congruence].
  - apply dom_alter_L.
  - intros id' p p' Hp1 Hp'. destruct (decide (id = id')) as [<-|Hne].
    + rewrite lookup_alter_eq, Hp1 in Hp'. by injection Hp' as <-.
    + rewrite lookup_alter_ne, Hp1 in Hp' by done. by injection Hp' as <-.
Qed.

(** A contractor is never credited: a deposit request that names a profile
    of type contractor is refused and changes nothing. *)
Theorem deposit_refuses_contractor st userId p amount :
  Profiles st !! userId = Some p → type p = contractor →
  status_code (deposit SUM st (Some userId) amount).2 ≠ 200 ∧
  (deposit SUM st (Some userId) amount).1 = st.
Proof.
  intros Hp Hty.
  destruct (deposit_cases st (Some userId) amount)
    as [H|[H|[(id & _ & H)|(id & payer & [= <-] & Hp' & Hty' & _)]]];
    try (by rewrite H).
  rewrite Hp in Hp'. injection Hp' as <-. congruence.
Qed.


Lemma deposit_number_success st userId payer a :
  Profiles st !! userId = Some payer → type payer = client →
  num_lt 0 a = true → num_le a (maxDeposit SUM st userId) = true →
  let b' := num_add (parseFloat (from_column (balance payer))) a in
  deposit SUM st (Some userId) (VNum a)
  = (update_balance st userId b', Resp 200 (DepositSuccess b')).
Proof.
  intros Hp Hty Ha Hcap b'. subst b'.
  unfold deposit, Profile_findOne, le_number, gt_number. cbn [ToNumber].
  unfold num_gt, num_le in *. rewrite (ltb_leb_false _ _ Ha).
  rewrite Hp, decide_True by done.
  rewrite (parseFloat_number a) by (by apply ltb_0_not_zero).
  rewrite (ltb_negb_leb (maxDeposit SUM st userId) a)
    by (apply maxDeposit_not_nan || apply (ltb_true_not_nan _ _ Ha)).
  by rewrite Hcap.
Qed.

(** The cap is a limit on each deposit, not on their sum: a deposit does
    not change the cap of anyone, and a positive amount within the cap can
    be deposited again right after it was deposited, each deposit adding
    the amount, in binary64, to the balance it finds. *)
Theorem deposit_cap_is_per_request st userId payer a :
  Profiles st !! userId = Some payer → type payer = client →
  num_lt 0 a = true → num_le a (maxDeposit SUM st userId) = true →
  let b1 := num_add (parseFloat (from_column (balance payer))) a in
  let b2 := num_add (parseFloat (VNum b1)) a in
  let st1 := (deposit SUM st (Some userId) (VNum a)).1 in
  (∀ id, maxDeposit SUM st1 id = maxDeposit SUM st id) ∧
  deposit SUM st (Some userId) (VNum a)
  = (update_balance st userId b1, Resp 200 (DepositSuccess b1)) ∧
  deposit SUM st1 (Some userId) (VNum a)
  = (update_balance st1 userId b2, Resp 200 (DepositSuccess b2)).
Proof.
  intros Hp Hty Ha Hcap b1 b2 st1. subst b1 b2 st1.
  rewrite (deposit_number_success st userId payer a) by done. cbn [fst].
  split_and!; [done|done|].
  rewrite <- parseFloat_from_column_to_column.
  apply (deposit_number_success _ userId
           (set_balance (to_column
              (num_add (parseFloat (from_column (balance payer))) a)) payer));
    try done.
  cbn. by rewrite lookup_alter_eq, Hp.
Qed.

End deposits_more.

Lemma deposit_number_keeps_nonneg_witness :
  nonneg_balances (deposit binary64_sum sample (Some 1) (VNum 20)).1.
Proof.
  apply deposit_number_keeps_nonneg; [reflexivity|].
  apply map_Forall_to_list. vm_compute. repeat constructor.
Defined.

Lemma deposit_failure_leaves_store_witness :
  (deposit binary64_sum sample (Some 1) (VNum 78)).1 = sample ∧
  (deposit binary64_sum sample (Some 2) (VNum 1)).1 = sample.
Proof.
  split; apply deposit_failure_leaves_store; vm_compute; discriminate.
Defined.

Lemma deposit_writes_one_balance_witness :
  Profiles (deposit binary64_sum sample (Some 1) (VNum 20)).1 !! 2
  = Profiles sample !! 2 ∧
  Jobs (deposit binary64_sum sample (Some 1) (VNum 20)).1 = Jobs sample.
Proof.
  destruct (deposit_writes_one_balance binary64_sum sample (Some 1) (VNum 20))
    as (_ & Hjobs & Hother & _).
  split; [|exact Hjobs]. apply Hother. discriminate.
Defined.

Lemma deposit_refuses_contractor_witness :
  (deposit binary64_sum sample (Some 2) (VNum 1)).1 = sample.
Proof.
  by apply (deposit_refuses_contractor binary64_sum sample 2
              (mkProfile "Linus" "Torvalds" "Programmer"
                 (Some (money 10 eq_refl)) contractor)).
Defined.


Lemma deposit_cap_is_per_request_witness :
  deposit binary64_sum
    (deposit binary64_sum sample (Some 1) (VNum 70)).1 (Some 1) (VNum 70)
  = (update_balance (deposit binary64_sum sample (Some 1) (VNum 70)).1 1
       (50 + 70 + 70),
     Resp 200 (DepositSuccess (50 + 70 + 70))).
Proof.
  exact (proj2 (proj2
    (deposit_cap_is_per_request binary64_sum sample 1
       (mkProfile "Harry" "Potter" "Wizard" (Some (money 50 eq_refl)) client)
       70%float eq_refl eq_refl eq_refl eq_refl))).
Defined.

(** ** The unpaid jobs of a profile *)

Lemma elem_of_get_jobs_unpaid st profileId id j :
  (id, j) ∈ get_jobs_unpaid st profileId ↔
  Jobs st !! id = Some j ∧ paid j = false ∧
  ∃ c, Contracts st !! ContractId j = Some c ∧ ActiveFor profileId c.
Proof.
  unfold get_jobs_unpaid.
  rewrite list_elem_of_In, filter_In, <- list_elem_of_In.
  rewrite elem_of_map_to_list, andb_true_iff, negb_true_iff.
  rewrite bool_decide_eq_true, list_elem_of_fmap. cbn [snd].
  split.
  - intros (Hj & ([cid c] & Hcid & Hin) & Hpaid). cbn in Hcid.
    apply elem_of_Contract_findAll in Hin as [Hc Hact].
    apply active_for_ActiveFor in Hact. subst cid. eauto.
  - intros (Hj & Hpaid & c & Hc & Hact). split_and!; try done.
    exists (ContractId j, c). split; [done|].
    by apply elem_of_Contract_findAll, conj, active_for_ActiveFor.
Qed.

(** GET /jobs/unpaid lists, each once, exactly the unpaid jobs whose
    contract exists, is in progress and has the profile as client or as
    contractor. *)
Theorem get_jobs_unpaid_lists_active_unpaid st profileId :
  NoDup (get_jobs_unpaid st profileId) ∧
  ∀ id j,
    (id, j) ∈ get_jobs_unpaid st profileId ↔
    Jobs st !! id = Some j ∧ paid j = false ∧
    ∃ c, Contracts st !! ContractId j = Some c ∧ ActiveFor profileId c.
Proof.
  split; [|apply elem_of_get_jobs_unpaid].
  apply NoDup_ListNoDup, List.NoDup_filter, NoDup_ListNoDup.
  apply NoDup_map_to_list.
Qed.

Lemma get_jobs_unpaid_lists_active_unpaid_witness :
  (3, mkJob (money 30 eq_refl) false None 1) ∈ get_jobs_unpaid sample 2.
Proof.
  apply get_jobs_unpaid_lists_active_unpaid. split_and!; try reflexivity.
  exists (mkContract in_progress 1 2). split; [reflexivity|].
  split; [reflexivity|by right].
Defined.

(** The jobs that count towards the deposit cap of a payer are the jobs
    listed as unpaid for him under a contract of which he is the client. *)
Theorem outstanding_are_listed_unpaid st payerId id j :
  outstanding st payerId !! id = Some j ↔
  (id, j) ∈ get_jobs_unpaid st payerId ∧
  ∃ c, Contracts st !! ContractId j = Some c ∧ ClientId c = payerId.
Proof.
  rewrite elem_of_get_jobs_unpaid.
  unfold outstanding. rewrite map_lookup_filter_Some.
  unfold Outstanding, ActiveFor. cbn [snd]. split.
  - intros (Hj & Hpaid & c & Hc & Hclient & Hstatus).
    split; [|by eauto]. split_and!; try done. exists c. auto.
  - intros ((Hj & Hpaid & c & Hc & Hstatus & _) & c' & Hc' & Hclient).
    rewrite Hc in Hc'. injection Hc' as <-. split_and!; try done. by exists c.
Qed.

Lemma outstanding_are_listed_unpaid_witness :
  (3, mkJob (money 30 eq_refl) false None 1) ∈ get_jobs_unpaid sample 1.
Proof.
  apply (outstanding_are_listed_unpaid sample 1 3
           (mkJob (money 30 eq_refl) false None 1)).
  reflexivity.
Defined.

(** Once a job is paid it is no longer listed as unpaid, for anyone, and
    the jobs listed otherwise are the same. *)
Theorem pay_job_unlists_job st jobId clientId now :
  status_code (pay_job st (Some jobId) clientId now).2 = 200 →
  ∀ profileId id j,
    (id, j) ∈ get_jobs_unpaid (pay_job st (Some jobId) clientId now).1
                profileId ↔
    id ≠ jobId ∧ (id, j) ∈ get_jobs_unpaid st profileId.
Proof.
  intros Hok profileId id j.
  rewrite !elem_of_get_jobs_unpaid.
  destruct (pay_job_outcome st (Some jobId) clientId now)
    as [ | | | | | | |id0 job contract payer performer Hid Hjob Hpaid Hc Hp Hlt Hq];
    try (simpl in Hok; discriminate).
  injection Hid as <-. cbn [fst Jobs Contracts update_paid update_balance].
  destruct (decide (id = jobId)) as [->|Hne].
  - rewrite lookup_alter_eq, Hjob. cbn. split; [|by intros [? _]].
    by intros ([= <-] & ? & _).
  - rewrite lookup_alter_ne by done. tauto.
Qed.

Lemma pay_job_unlists_job_witness :
  (3, mkJob (money 30 eq_refl) false None 1) ∈ get_jobs_unpaid sample 1 ∧
  ¬ (3, mkJob (money 30 eq_refl) false None 1)
    ∈ get_jobs_unpaid (pay_job sample (Some 3) 1 1000).1 1.
Proof.
  pose proof (pay_job_unlists_job sample 3 1 1000 eq_refl 1 3
                (mkJob (money 30 eq_refl) false None 1)) as H.
  split.
  - vm_compute. apply list_elem_of_In. cbn. tauto.
  - intros Hin. apply H in Hin as [Hne _]. by apply Hne.
Defined.

(** ** One contract and the list of contracts *)

(** GET /contracts/:id answers with the contract only to its client.  A
    contract in progress is listed by GET /contracts for its contractor as
    well, but the contractor who asks for it by id gets the 404; its client
    gets it from both, and whatever the status of the contract from
    GET /contracts/:id. *)
Theorem get_contract_only_for_client st id c profileId :
  Contracts st !! id = Some c →
  (ClientId c = profileId → get_contract st id profileId = ContractJson id c) ∧
  (ClientId c ≠ profileId → get_contract st id profileId = ContractNotFound) ∧
  (status c = in_progress →
   ClientId c = profileId ∨ ContractorId c = profileId →
   ∃ rows, get_contracts st profileId = Resp 200 (ContractList rows) ∧
           (id, c) ∈ rows).
Proof.
  intros Hc. unfold get_contract, Contract_findOne_of_client. rewrite Hc.
  split_and!.
  - intros Hcl. by rewrite decide_True.
  - intros Hcl. by rewrite decide_False.
  - intros Hst Hparty. unfold get_contracts.
    assert ((id, c) ∈ Contract_findAll st (active_for profileId)) as Hin
      by (by apply elem_of_Contract_findAll, conj, active_for_ActiveFor).
    destruct (Contract_findAll st (active_for profileId)) as [|r rows].
    + by apply elem_of_nil in Hin.
    + cbn. eauto.
Qed.

Lemma get_contract_only_for_client_witness :
  get_contract sample 1 2 = ContractNotFound ∧
  get_contract sample 1 1 = ContractJson 1 (mkContract in_progress 1 2) ∧
  ∃ rows, get_contracts sample 2 = Resp 200 (ContractList rows) ∧
          (1, mkContract in_progress 1 2) ∈ rows.
Proof.
  destruct (get_contract_only_for_client sample 1
              (mkContract in_progress 1 2) 2 eq_refl) as (_ & Hno & Hlist).
  destruct (get_contract_only_for_client sample 1
              (mkContract in_progress 1 2) 1 eq_refl) as (Hyes & _ & _).
  split_and!.
  - apply Hno. discriminate.
  - by apply Hyes.
  - apply Hlist; [reflexivity|by right].
Defined.

(** ** The best clients *)

Lemma sql_limit_prefix {A} (n : Z) (l : list A) :
  ∃ rest, l = sql_limit n l ++ rest.
Proof.
  unfold sql_limit. destruct (n <? 0).
  - exists []. by rewrite app_nil_r.
  - exists (drop (Z.to_nat n) l). by rewrite take_drop.
Qed.

Lemma elem_of_client_payments_keys st start end_ k :
  k ∈ (client_payments st start end_).*1 ↔
  ∃ id j, settled st start end_ !! id = Some j ∧
          ClientId <$> Contracts st !! ContractId j = Some k.
Proof.
  unfold client_payments. rewrite list_elem_of_fmap.
  rewrite paid_jobs_settled_rows. split.
  - intros ([k' q] & -> & Hin). apply list_elem_of_omap in Hin
      as ([id j] & Hin & Hsome).
    apply elem_of_settled_rows in Hin.
    cbn in Hsome. exists id, j. split; [done|].
    destruct (Contracts st !! ContractId j) as [c|]; [|done].
    by injection Hsome as <- _.
  - intros (id & j & Hin & Hk).
    destruct (Contracts st !! ContractId j) as [c|] eqn:Hc; [|done].
    injection Hk as <-. exists (ClientId c, price j). split; [done|].
    apply list_elem_of_omap. exists (id, j). split.
    + by apply elem_of_settled_rows.
    + cbn. by rewrite Hc.
Qed.

Lemma omap_client_payments_filter st k (l : list (Z * Job)) :
  snd <$> List.filter (λ r : Z * real, bool_decide (r.1 = k))
            (omap (λ r : Z * Job,
                     c ← Contracts st !! ContractId r.2;
                     Some (ClientId c, price r.2)) l)
  = (λ r, price r.2)
      <$> List.filter
            (λ r, bool_decide (ClientId <$> Contracts st !! ContractId r.2
                               = Some k)) l.
Proof.
  induction l as [|[id j] l IH]; [done|]. cbn.
  destruct (Contracts st !! ContractId j) as [c|]; cbn; [|done].
  destruct (decide (ClientId c = k)) as [->|Hne].
  - rewrite !bool_decide_eq_true_2 by done. cbn. by rewrite IH.
  - rewrite !bool_decide_eq_false_2 by congruence. done.
Qed.

Section best_clients.

Variable SUM : list real → num.

(** The rows of the report are the first groups of the sorted groups. *)
Lemma bestClients_structure st start end_ limit :
  ∃ chosen rest,
    bestClients SUM st start end_ limit = client_total st <$> chosen ∧
    StronglySorted total_ge (chosen ++ rest) ∧
    chosen ++ rest ≡ₚ group_totals SUM (client_payments st start end_).
Proof.
  unfold bestClients.
  set (sorted := order_by_total_desc
                   (group_totals SUM (client_payments st start end_))).
  destruct (sql_limit_prefix limit sorted) as [rest Hrest].
  exists (sql_limit limit sorted), rest.
  rewrite <- Hrest. split_and!; [done| |].
  - apply StronglySorted_merge_sort; apply _.
  - apply merge_sort_Permutation.
Qed.

Lemma total_of_paid_by st start end_ k :
  total_of SUM k (client_payments st start end_)
  = paid_by SUM st start end_ k.
Proof.
  unfold total_of, client_payments, paid_by.
  rewrite omap_client_payments_filter, paid_jobs_settled_rows.
  f_equal. f_equal. apply List_filter_Prop.
  intros r. apply bool_decide_eq_true.
Qed.

(** The report is ordered by the amount paid, largest first, a total that
    is NULL coming last. *)
Theorem bestClients_sorted st start end_ limit :
  StronglySorted (λ a b, sql_le (totalPaid b) (totalPaid a) = true)
    (bestClients SUM st start end_ limit).
Proof.
  destruct (bestClients_structure st start end_ limit)
    as (chosen & rest & -> & Hsorted & _).
  apply StronglySorted_app_1_l in Hsorted.
  apply (StronglySorted_fmap _ total_ge); [|done].
  intros a b. by rewrite total_ge_le.
Qed.

(** Each row of the report stands for a client of a contract with a job
    settled in the window, no client has two rows, the amount of a row is
    the total that the store's [SUM] gives for the prices of that client's
    settled jobs, and the names are those of the client's profile. *)
Theorem bestClients_rows st start end_ limit :
  NoDup (ct_ClientId <$> bestClients SUM st start end_ limit) ∧
  ∀ row, row ∈ bestClients SUM st start end_ limit →
    (∃ id j, settled st start end_ !! id = Some j ∧
             ClientId <$> Contracts st !! ContractId j
             = Some (ct_ClientId row)) ∧
    totalPaid row = paid_by SUM st start end_ (ct_ClientId row) ∧
    ct_firstName row = firstName <$> Profiles st !! ct_ClientId row ∧
    ct_lastName row = lastName <$> Profiles st !! ct_ClientId row.
Proof.
  destruct (bestClients_structure st start end_ limit)
    as (chosen & rest & -> & _ & Hperm).
  split.
  - rewrite <- list_fmap_compose.
    assert (NoDup ((chosen ++ rest).*1)) as Hnodup.
    { rewrite Hperm, group_totals_keys. apply NoDup_remove_dups. }
    rewrite fmap_app in Hnodup. by apply NoDup_app in Hnodup as [? _].
  - intros row ([k q] & -> & Hin)%list_elem_of_fmap.
    assert ((k, q) ∈ group_totals SUM (client_payments st start end_)) as Hg
      by (rewrite <- Hperm; apply elem_of_app; by left).
    apply elem_of_group_totals in Hg as [Hk ->]. cbn.
    split_and!; [|apply total_of_paid_by|done..].
    by apply elem_of_client_payments_keys.
Qed.

(** The report keeps the clients with the largest totals: a client who
    paid for a job in the window and has no row has a total that is at most
    the total of any client who has one. *)
Theorem bestClients_top st start end_ limit row k :
  row ∈ bestClients SUM st start end_ limit →
  (∃ id j, settled st start end_ !! id = Some j ∧
           ClientId <$> Contracts st !! ContractId j = Some k) →
  k ∉ ct_ClientId <$> bestClients SUM st start end_ limit →
  sql_le (paid_by SUM st start end_ k) (totalPaid row) = true.
Proof.
  destruct (bestClients_structure st start end_ limit)
    as (chosen & rest & -> & Hsorted & Hperm).
  intros ([k' q] & -> & Hin)%list_elem_of_fmap Hpaying Hnot. cbn.
  set (g := (k, total_of SUM k (client_payments st start end_))).
  assert (g ∈ chosen ++ rest) as Hg.
  { rewrite Hperm. apply elem_of_group_totals. split; [|done].
    by apply elem_of_client_payments_keys. }
  apply elem_of_app in Hg as [Hg|Hg].
  - destruct Hnot. rewrite <- list_fmap_compose.
    apply list_elem_of_fmap. by exists g.
  - rewrite <- total_of_paid_by.
    apply (total_ge_le (k', q) g).
    by apply (StronglySorted_app_1_elem_of _ chosen rest).
Qed.

(** When the effective limit ([parseInt(limit, 10) || 2]) is a positive
    integer that the query accepts, the report is sent and has at most that
    many rows. *)
Theorem bestClients_length st start end_ limit n :
  limit_clause (limit_option limit) = Some n → 0 < n →
  best_clients SUM st (Some start) (Some end_) limit
  = Resp 200 (BestClients (bestClients SUM st start end_ n)) ∧
  (length (bestClients SUM st start end_ n) ≤ Z.to_nat n)%nat.
Proof.
  intros Hlimit Hpos. unfold best_clients. rewrite Hlimit. split; [done|].
  unfold bestClients, sql_limit. rewrite length_fmap.
  destruct (Z.ltb_spec n 0); [lia|].
  rewrite length_take. lia.
Qed.

End best_clients.

Lemma bestClients_rows_witness :
  totalPaid (mkClientTotal (Some (money 400 eq_refl))
               (Some "Mr") (Some "Robot") 2)
  = paid_by binary64_sum settled_sample 0 100 2.
Proof.
  destruct (bestClients_rows binary64_sum settled_sample 0 100 2) as [_ H].
  destruct (H (mkClientTotal (Some (money 400 eq_refl))
                 (Some "Mr") (Some "Robot") 2))
    as (_ & Htotal & _).
  - vm_compute. apply list_elem_of_In. cbn. tauto.
  - exact Htotal.
Defined.

Lemma bestClients_top_witness :
  sql_le (paid_by binary64_sum settled_sample 0 100 3)
         (totalPaid (mkClientTotal (Some (money 300 eq_refl))
                       (Some "Harry") (Some "Potter") 1))
  = true.
Proof.
  apply (bestClients_top binary64_sum settled_sample 0 100 2
           (mkClientTotal (Some (money 300 eq_refl))
              (Some "Harry") (Some "Potter") 1) 3).
  - vm_compute. apply list_elem_of_In. cbn. tauto.
  - exists 3, (mkJob (money 100 eq_refl) true (Some 30) 3).
    split; reflexivity.
  - vm_compute. intros Hin. apply list_elem_of_In in Hin. cbn in Hin.
    destruct Hin as [?|[?|[]]]; discriminate.
Defined.

Lemma bestClients_length_witness :
  (length (bestClients binary64_sum settled_sample 0 100 2) ≤ 2)%nat.
Proof.
  apply (bestClients_length binary64_sum settled_sample 0 100 (Some "2") 2);
    reflexivity.
Defined.

(** ** Path parameters *)

Lemma digits2_pos_iter_xO p k :
  digits2_pos (Pos.iter xO p k) = (digits2_pos p + k)%positive.
Proof.
  induction k as [|k IH] using Pos.peano_ind.
  - cbn. lia.
  - rewrite Pos.iter_succ. cbn [digits2_pos]. rewrite IH. lia.
Qed.

(** An integer below 2^53 is a number: [of_Z] does not round it. *)
Lemma of_Z_exact (p : positive) :
  Zpos p < 2 ^ 53 →
  ∃ m e, Prim2SF (of_Z (Zpos p)) = S754_finite false m e ∧
         -52 ≤ e ≤ 0 ∧ Zpos m = Zpos p * 2 ^ (- e).
Proof.
  intros Hp. unfold of_Z.
  pose proof (digits2_pos_bounds p) as Hd.
  assert (Zpos (digits2_pos p) ≤ 53) as Hd53.
  { destruct (Z.le_gt_cases (Zpos (digits2_pos p)) 53) as [|Hgt]; [done|].
    assert (2 ^ 53 ≤ 2 ^ (Zpos (digits2_pos p) - 1))
      by (apply Z.pow_le_mono_r; lia). lia. }
  set (d := Zpos (digits2_pos p)) in *.
  assert (fexp prec emax (d + 0) = d - 53) as Hfexp
    by (unfold fexp, FloatOps.emin, SpecFloat.emin, prec, emax; lia).
  assert (∃ m, Zpos m = Zpos p * 2 ^ (53 - d) ∧
               Zpos (digits2_pos m) = 53 ∧
               shl_align p 0 (d - 53) = (m, d - 53)) as (m & Hm & Hdm & Hshl).
  { unfold shl_align. destruct (d - 53 - 0) as [|q|q] eqn:Hq; [|lia|].
    - exists p. replace (53 - d) with 0 by lia. replace (d - 53) with 0 by lia.
      split_and!; [lia|fold d; lia|done].
    - exists (Pos.iter xO p q). rewrite iter_xO, digits2_pos_iter_xO.
      split_and!; [f_equal; f_equal; lia|fold d; lia|done]. }
  exists m, (d - 53).
  assert (binary_normalize prec emax (Zpos p) 0 false
          = S754_finite false m (d - 53)) as Hnorm.
  { cbn [binary_normalize]. unfold binary_round. fold d. rewrite Hfexp, Hshl.
    unfold binary_round_aux.
    assert (shr_fexp prec emax (Zpos m) (d - 53) loc_Exact
            = ({| shr_m := Zpos m; shr_r := false; shr_s := false |}, d - 53))
      as Hshr.
    { unfold shr_fexp. cbn [Zdigits2]. rewrite Hdm.
      replace (fexp prec emax (53 + (d - 53)) - (d - 53)) with 0; [done|].
      unfold fexp, FloatOps.emin, SpecFloat.emin, prec, emax. lia. }
    rewrite Hshr. cbn [shr_m loc_of_shr_record round_nearest_even].
    rewrite Hshr. cbn [shr_m].
    assert ((d - 53 <=? emax - prec) = true) as ->
      by (apply Z.leb_le; unfold emax, prec; lia).
    done. }
  rewrite Hnorm. rewrite Prim2SF_SF2Prim.
  - split_and!; [done|lia|lia|]. rewrite Hm. f_equal. f_equal. lia.
  - unfold valid_binary, bounded, canonical_mantissa.
    rewrite Hdm. apply andb_true_iff. split.
    + apply Z.eqb_eq. unfold fexp, FloatOps.emin, SpecFloat.emin, prec, emax.
      lia.
    + apply Z.leb_le. unfold emax, prec. lia.
Qed.

Lemma integer_value_of_Z (z : Z) :
  0 ≤ z < 2 ^ 53 →
  is_nan (of_Z z) = false ∧ integer_value (of_Z z) = Some z ∧
  is_nan (- of_Z z)%float = false ∧
  integer_value (- of_Z z)%float = Some (- z).
Proof.
  intros Hz. destruct z as [|p|p]; [by vm_compute| |lia].
  destruct (of_Z_exact p) as (m & e & Hsf & He & Hm); [lia|].
  assert (Zpos m mod 2 ^ (- e) = 0 ∧ Zpos m / 2 ^ (- e) = Zpos p) as [Hmod Hdiv].
  { rewrite Hm. assert (0 < 2 ^ (- e)) by (apply Z.pow_pos_nonneg; lia).
    split; [apply Z.mod_mul; lia|apply Z.div_mul; lia]. }
  assert (∀ s, match (if 0 <=? e then Some (cond_Zopp s (Zpos m * 2 ^ e))
                      else if Zpos m mod 2 ^ (- e) =? 0
                           then Some (cond_Zopp s (Zpos m / 2 ^ (- e)))
                           else None) with
               | Some v => v = cond_Zopp s (Zpos p)
               | None => False
               end) as Hval.
  { intros s. destruct (Z.leb_spec 0 e).
    - assert (e = 0) as -> by lia. rewrite Hm. cbn. f_equal. lia.
    - rewrite Hmod, Hdiv. done. }
  split_and!.
  - apply is_nan_false. by rewrite Hsf.
  - unfold integer_value. rewrite Hsf. specialize (Hval false).
    destruct (if 0 <=? e then _ else _); [by subst|done].
  - apply is_nan_false. by rewrite opp_spec, Hsf.
  - unfold integer_value. rewrite opp_spec, Hsf. cbn [SFopp negb].
    specialize (Hval true).
    destruct (if 0 <=? e then _ else _); [by subst|done].
Qed.

Lemma skip_ws_ascii c s :
  code c < 128 → is_ws c = false → skip_ws (String c s) = String c s.
Proof.
  intros Hc Hws. cbn [skip_ws]. rewrite Hws.
  destruct s as [|c2 [|c3 s]]; try done.
  - unfold is_ws2. by rewrite (proj2 (Z.eqb_neq (code c) 194)) by lia.
  - unfold is_ws2, is_ws3.
    rewrite (proj2 (Z.eqb_neq (code c) 194)) by lia.
    rewrite (proj2 (Z.eqb_neq (code c) 225)) by lia.
    rewrite (proj2 (Z.eqb_neq (code c) 226)) by lia.
    rewrite (proj2 (Z.eqb_neq (code c) 227)) by lia.
    by rewrite (proj2 (Z.eqb_neq (code c) 239)) by lia.
Qed.

Lemma digit_val_pretty_N_char (y : N) :
  (y < 10)%N →
  digit_val 10 (pretty_N_char y) = Some (Z.of_N y) ∧
  (∀ s, skip_ws (String (pretty_N_char y) s) = String (pretty_N_char y) s) ∧
  ∀ s, sign (String (pretty_N_char y) s) = (false, String (pretty_N_char y) s).
Proof.
  intros Hy.
  assert (y = 0 ∨ y = 1 ∨ y = 2 ∨ y = 3 ∨ y = 4 ∨ y = 5 ∨ y = 6 ∨ y = 7
          ∨ y = 8 ∨ y = 9)%N as Hcases by lia.
  repeat destruct Hcases as [->|Hcases]; try subst y;
    (split_and!; [done| |done]); intros s; by apply skip_ws_ascii.
Qed.

Lemma digits_pretty_N_go (x : N) (s : string) (acc : Z) (n : nat) :
  ∃ k : nat,
    digits 10 (pretty_N_go x s) acc n
    = digits 10 s (acc * 10 ^ Z.of_nat k + Z.of_N x) (n + k)%nat ∧
    ((0 < x)%N → (0 < k)%nat).
Proof.
  revert s. induction (N.lt_wf_0 x) as [x _ IH]. intros s.
  destruct (decide (0 < x)%N) as [Hx|Hx].
  2:{ assert (x = 0%N) as -> by lia. exists 0%nat. rewrite pretty_N_go_0.
      split; [|lia]. f_equal; lia. }
  rewrite pretty_N_go_step by done.
  destruct (IH (x `div` 10)%N (N.div_lt x 10 Hx eq_refl)
              (String (pretty_N_char (x `mod` 10)) s)) as (k & Hk & _).
  exists (S k). split; [|lia]. rewrite Hk. cbn [digits].
  destruct (digit_val_pretty_N_char (x `mod` 10)) as (-> & _ & _).
  { apply N.mod_lt. lia. }
  pose proof (N.div_mod x 10 ltac:(lia)) as Hdm.
  set (a := (x `div` 10)%N) in *. set (b := (x `mod` 10)%N) in *.
  clearbody a b. f_equal; [|lia].
  rewrite Nat2Z.inj_succ, Z.pow_succ_r by lia. lia.
Qed.

Lemma pretty_N_go_head (x : N) (s : string) :
  (0 < x)%N →
  ∃ y rest, (y < 10)%N ∧ pretty_N_go x s = String (pretty_N_char y) rest.
Proof.
  revert s. induction (N.lt_wf_0 x) as [x _ IH]. intros s Hx.
  rewrite pretty_N_go_step by done.
  destruct (decide (0 < x `div` 10)%N) as [Hd|Hd].
  - apply IH; [|done]. by apply N.div_lt.
  - assert (x `div` 10 = 0)%N as ->
      by (destruct (x `div` 10)%N; [done|lia]).
    rewrite pretty_N_go_0.
    eexists _, _. split; [|done]. apply N.mod_lt. lia.
Qed.

Lemma pretty_N_go_app (x : N) (s t : string) :
  pretty_N_go x s +:+ t = pretty_N_go x (s +:+ t).
Proof.
  revert s. induction (N.lt_wf_0 x) as [x _ IH]. intros s.
  destruct (decide (0 < x)%N) as [Hx|Hx].
  - rewrite !(pretty_N_go_step x) by done.
    by rewrite IH by (by apply N.div_lt).
  - assert (x = 0%N) as -> by lia. by rewrite !pretty_N_go_0.
Qed.

Lemma digits_stop (suffix : string) (acc : Z) (n : nat) :
  (∀ c s, suffix = String c s → digit_val 10 c = None) →
  digits 10 suffix acc n = (acc, n, suffix).
Proof.
  intros Hstop. destruct suffix as [|c s]; [done|].
  cbn. by rewrite (Hstop c s).
Qed.

Lemma parseInt10_pretty_N_go (x : N) (suffix : string) :
  (0 < x)%N →
  (∀ c s, suffix = String c s → digit_val 10 c = None) →
  parseInt10 (pretty_N_go x suffix) = of_Z (Z.of_N x) ∧
  parseInt10 (String "-" (pretty_N_go x suffix)) = (- of_Z (Z.of_N x))%float.
Proof.
  intros Hx Hstop.
  destruct (pretty_N_go_head x suffix Hx) as (y & rest & Hy & Hhead).
  destruct (digit_val_pretty_N_char y Hy) as (_ & Hws & Hsign).
  destruct (digits_pretty_N_go x suffix 0 0%nat) as (k & Hk & Hpos).
  rewrite (digits_stop _ _ _ Hstop) in Hk. specialize (Hpos Hx).
  unfold parseInt10. rewrite (skip_ws_ascii "-"%char) by done.
  rewrite Hhead, Hws.
  assert (∀ s, sign (String "-"%char s) = (true, s)) as -> by done.
  rewrite Hsign, <- Hhead, Hk.
  destruct k; [lia|]. by split.
Qed.

(** [parseInt] reads the decimal numeral of an integer as the number
    nearest to it, and stops at the first character that is not a digit:
    whatever follows the numeral is ignored. *)
Lemma parseInt10_pretty (z : Z) (suffix : string) :
  (∀ c s, suffix = String c s → digit_val 10 c = None) →
  parseInt10 (pretty z +:+ suffix)
  = if z <? 0 then (- of_Z (- z))%float else of_Z z.
Proof.
  intros Hstop. destruct z as [|p|p].
  - change (pretty 0 +:+ suffix) with (String "0"%char suffix).
    unfold parseInt10. rewrite skip_ws_ascii by done.
    change (sign (String "0"%char suffix)) with (false, String "0"%char suffix).
    cbv beta iota.
    change (digits 10 (String "0"%char suffix) 0 0%nat)
      with (digits 10 suffix 0 1%nat).
    by rewrite (digits_stop _ _ _ Hstop).
  - change (parseInt10 (pretty_N_go (N.pos p) "" +:+ suffix)
            = of_Z (Z.of_N (N.pos p))).
    rewrite pretty_N_go_app. by apply parseInt10_pretty_N_go.
  - change (parseInt10 (String "-" (pretty_N_go (N.pos p) "" +:+ suffix))
            = (- of_Z (Z.of_N (N.pos p)))%float).
    rewrite pretty_N_go_app. by apply parseInt10_pretty_N_go.
Qed.

(** The path parameter of an id below 2^53 in absolute value reads back as
    that id. *)
Lemma parseInt10_integer (z : Z) (suffix : string) :
  - 2 ^ 53 < z < 2 ^ 53 →
  (∀ c s, suffix = String c s → digit_val 10 c = None) →
  isNaN (parseInt10 (pretty z +:+ suffix)) = false ∧
  integer_value (parseInt10 (pretty z +:+ suffix)) = Some z.
Proof.
  intros Hz Hstop. rewrite (parseInt10_pretty z suffix Hstop). unfold isNaN.
  destruct (Z.ltb_spec z 0).
  - destruct (integer_value_of_Z (- z)) as (_ & _ & Hn & Hv); [lia|].
    split; [done|]. rewrite Hv. f_equal. lia.
  - by destruct (integer_value_of_Z z) as (Hn & Hv & _ & _); [lia|].
Qed.

(** The routes read an id written in decimal, when it is below 2^53 in
    absolute value, and ignore what follows the numeral in the path
    parameter. *)
Theorem routes_read_numeral (SUM : list real → num) st (z : Z)
    (suffix : string) clientId now amount :
  - 2 ^ 53 < z < 2 ^ 53 →
  (∀ c s, suffix = String c s → digit_val 10 c = None) →
  post_jobs_pay st (pretty z +:+ suffix) clientId now
  = pay_job st (Some z) clientId now ∧
  post_balances_deposit SUM st (pretty z +:+ suffix) amount
  = deposit SUM st (Some z) amount.
Proof.
  intros Hz Hstop. unfold post_jobs_pay, post_balances_deposit.
  destruct (parseInt10_integer z suffix Hz Hstop) as [-> ->]. done.
Qed.

Lemma routes_read_numeral_witness :
  post_jobs_pay sample "3abc" 1 1000 = pay_job sample (Some 3) 1 1000 ∧
  post_balances_deposit binary64_sum sample "-7" (VNum 1)
  = deposit binary64_sum sample (Some (-7)) (VNum 1).
Proof.
  split.
  - apply (routes_read_numeral binary64_sum sample 3 "abc" 1 1000 VNull).
    + done.
    + intros c s [= <- _]. reflexivity.
  - apply (routes_read_numeral binary64_sum sample (-7) "" 1 1000 (VNum 1)).
    + done.
    + intros c s [=].
Defined.


